(** * Translation-key reconciliation: i18n-sync.py and i18n-extract.py

    A shallow embedding of the two localisation scripts of the repository
    and the properties their specification states about them.

    Conventions of the embedding.
    - A Python [str] is a [string]: a sequence of code points below 256
      (Latin-1).  The character classes of Python ([str.isspace],
      [str.lower], the regular-expression class [\w]) are written out on
      that range.
    - A Python [dict] is an association list in insertion order
      ([dict V]); a well-formed one has no repeated key ([dict_wf]).
    - A Python [set] of keys is a [gset string].  Its iteration order is
      not fixed by the language, so code that loops over a set takes the
      order as a parameter ([iter]) that enumerates the set.
    - The file system is a finite map from paths to file contents. *)

From stdpp Require Import gmap strings list sorting.
From Stdlib Require Import Ascii String ZArith.

Local Open Scope string_scope.
Local Open Scope bool_scope.
Local Open Scope list_scope.

(** ** Python strings *)

Module PyStr.

Definition ord (c : ascii) : N := N_of_ascii c.

Definition in_range (lo hi : N) (c : ascii) : bool :=
  (lo <=? ord c)%N && (ord c <=? hi)%N.

(** The regular-expression classes [[a-z]], [[A-Z]], [[0-9]]. *)
Definition is_lower_az (c : ascii) : bool := in_range 97 122 c.
Definition is_upper_AZ (c : ascii) : bool := in_range 65 90 c.
Definition is_digit09 (c : ascii) : bool := in_range 48 57 c.
Definition is_underscore (c : ascii) : bool := (ord c =? 95)%N.
Definition is_newline (c : ascii) : bool := (ord c =? 10)%N.

(** [[a-z0-9_]] *)
Definition is_snake_body (c : ascii) : bool :=
  is_lower_az c || is_digit09 c || is_underscore c.

(** [[a-z0-9]] *)
Definition is_lower_or_digit (c : ascii) : bool :=
  is_lower_az c || is_digit09 c.

(** The class [.] of [re] without DOTALL: anything but a line feed. *)
Definition is_dot (c : ascii) : bool := negb (is_newline c).

(** [str.isspace] on one character: TAB..CR, FS..US, SPACE, NEL, NBSP. *)
Definition is_space (c : ascii) : bool :=
  in_range 9 13 c || in_range 28 32 c || (ord c =? 133)%N || (ord c =? 160)%N.

(** The class [\w] of a [str] pattern: alphanumeric in the Unicode
    sense, or the underscore. *)
Definition is_word (c : ascii) : bool :=
  is_lower_az c || is_upper_AZ c || is_digit09 c || is_underscore c
  || (ord c =? 170)%N || (ord c =? 178)%N || (ord c =? 179)%N
  || (ord c =? 181)%N || (ord c =? 185)%N || (ord c =? 186)%N
  || in_range 188 190 c || in_range 192 214 c || in_range 216 246 c
  || in_range 248 255 c.

(** [str.isupper] on one character: the letters that [str.lower]
    changes. *)
Definition is_upper (c : ascii) : bool :=
  is_upper_AZ c || in_range 192 214 c || in_range 216 222 c.

(** [str.lower] on one character. *)
Definition lower_char (c : ascii) : ascii :=
  if is_upper c then ascii_of_N (ord c + 32) else c.

Fixpoint lower (s : string) : string :=
  match s with
  | "" => ""
  | String c r => String (lower_char c) (lower r)
  end.

(** The line feed, as a string. *)
Definition LF : string := String (ascii_of_N 10) "".

Definition is_empty (s : string) : bool :=
  match s with "" => true | _ => false end.

Fixpoint lstrip (p : ascii → bool) (s : string) : string :=
  match s with
  | "" => ""
  | String c r => if p c then lstrip p r else s
  end.

Fixpoint rstrip (p : ascii → bool) (s : string) : string :=
  match s with
  | "" => ""
  | String c r =>
      let r' := rstrip p r in
      if p c && is_empty r' then "" else String c r'
  end.

(** [s.strip()] is [strip is_space s]; [s.strip("_")] is
    [strip is_underscore s]. *)
Definition strip (p : ascii → bool) (s : string) : string :=
  rstrip p (lstrip p s).

(** [needle in s] *)
Fixpoint contains (needle s : string) : bool :=
  String.prefix needle s ||
  match s with
  | "" => false
  | String _ r => contains needle r
  end.

(** [s.split('\n')]: never empty, one more part than line feeds. *)
Fixpoint split_lines (s : string) : list string :=
  match s with
  | "" => [""]
  | String c r =>
      if is_newline c then "" :: split_lines r
      else match split_lines r with
           | [] => [String c ""]
           | l :: ls => String c l :: ls
           end
  end.

Fixpoint existsb (p : ascii → bool) (s : string) : bool :=
  match s with
  | "" => false
  | String c r => p c || existsb p r
  end.

(** What a greedy [[p]*] consumes at the start of [s]: the longest
    prefix made of characters of [p]; then its length, and what is
    left after it. *)
Fixpoint span (p : ascii → bool) (s : string) : string :=
  match s with
  | "" => ""
  | String c r => if p c then String c (span p r) else ""
  end.

Fixpoint span_len (p : ascii → bool) (s : string) : nat :=
  match s with
  | "" => 0
  | String c r => if p c then S (span_len p r) else 0
  end.

Fixpoint after_span (p : ascii → bool) (s : string) : string :=
  match s with
  | "" => ""
  | String c r => if p c then after_span p r else s
  end.

Fixpoint forallb (p : ascii → bool) (s : string) : bool :=
  match s with
  | "" => true
  | String c r => p c && forallb p r
  end.

End PyStr.

(** ** Python dictionaries, in insertion order *)

Abbreviation dict V := (list (string * V)).

Module PyDict.
Section ops.
Context {V : Type}.

Definition keys (d : dict V) : list string := d.*1.

(** [d[k]], with [None] for [KeyError]; also [d.get(k)]. *)
Fixpoint get (d : dict V) (k : string) : option V :=
  match d with
  | [] => None
  | (k', v) :: d' => if decide (k' = k) then Some v else get d' k
  end.

(** [k in d] *)
Definition mem (k : string) (d : dict V) : bool :=
  bool_decide (k ∈ keys d).

(** [d[k] = v]: an existing key keeps its position, a new one goes
    last. *)
Fixpoint set (d : dict V) (k : string) (v : V) : dict V :=
  match d with
  | [] => [(k, v)]
  | (k', v') :: d' =>
      if decide (k' = k) then (k, v) :: d' else (k', v') :: set d' k v
  end.

Definition dict_wf (d : dict V) : Prop := NoDup (keys d).
End ops.

(** [d[k].append(x)] on a [defaultdict(list)]: a missing key starts
    from the empty list. *)
Definition append_item {A} (d : dict (list A)) (k : string) (x : A)
  : dict (list A) :=
  match get d k with
  | Some xs => set d k (xs ++ [x])%list
  | None => set d k [x]
  end.
End PyDict.

Abbreviation schema_key := "$schema".

(** ** The file system seen by the scripts *)

Module FS.
(** Paths to the content of the regular file stored there. *)
Abbreviation t := (gmap string string).

(** [Path.exists] *)
Definition exists_ (fs : t) (p : string) : bool :=
  bool_decide (is_Some (fs !! p)).

(** [Path.rename] with the POSIX behaviour: an existing target is
    replaced.  Called only on a source that exists. *)
Definition rename (fs : t) (src dst : string) : t :=
  match fs !! src with
  | Some content => <[dst := content]> (delete src fs)
  | None => fs
  end.

(** [Path.unlink] *)
Definition unlink (fs : t) (p : string) : t := delete p fs.

(** What can go wrong inside the [try] block of [save_json]: the
    rename to the backup name raises, [open] raises before the file is
    created, the dump raises after [written] reached the file, or
    removing the backup raises. *)
Inductive fault :=
| NoFault
| RenameFails
| OpenFails
| DumpFails (written : string)
| UnlinkFails.

(** A computation of the [try] block: it ends normally or raises, in
    both cases with the file system it leaves behind. *)
Inductive outcome :=
| Done (fs : t)
| Raised (fs : t).
End FS.

(** ** i18n-sync.py *)

Module Sync.
Import PyStr PyDict.

(** *** Naming convention *)

(** The part [[a-z0-9_]*$] of the pattern: [$] matches at the end of
    the string and also just before a line feed that ends it. *)
Fixpoint snake_tail (s : string) : bool :=
  match s with
  | "" => true
  | String c r =>
      (is_snake_body c && snake_tail r) || (is_newline c && is_empty r)
  end.

(** [bool(re.match(r"^[a-z][a-z0-9_]*$", key))] *)
Definition validate_snake_case (key : string) : bool :=
  match key with
  | "" => false
  | String c r => is_lower_az c && snake_tail r
  end.

(** Does ["(.)([A-Z][a-z]+)"] match at [String c r]?  The answer is the
    number of characters group 2 covers. *)
Definition hump_at (c : ascii) (r : string) : option nat :=
  match r with
  | "" => None
  | String u r' =>
      if is_dot c && is_upper_AZ u && (0 <? span_len is_lower_az r')%nat
      then Some (S (span_len is_lower_az r')) else None
  end.

(** Does ["([a-z0-9])([A-Z])"] match at [String c r]? *)
Definition boundary_at (c : ascii) (r : string) : option nat :=
  match r with
  | "" => None
  | String u _ =>
      if is_lower_or_digit c && is_upper_AZ u then Some 1 else None
  end.

(** [re.sub(pattern, r"\1_\2", s)] for a pattern whose group 1 is one
    character and whose match at a position is decided by [match_at]:
    matches are taken leftmost and do not overlap, so the [skip]
    characters of group 2 are copied without being tried. *)
Fixpoint sub_underscore (match_at : ascii → string → option nat)
    (skip : nat) (s : string) : string :=
  match s with
  | "" => ""
  | String c r =>
      match skip with
      | S n => String c (sub_underscore match_at n r)
      | O =>
          match match_at c r with
          | Some n => String c (String "_" (sub_underscore match_at n r))
          | None => String c (sub_underscore match_at 0 r)
          end
      end
  end.

(** [re.sub("_+", "_", s)]; [in_run] says that the previous character
    belonged to the run being replaced. *)
Fixpoint squeeze_underscores (in_run : bool) (s : string) : string :=
  match s with
  | "" => ""
  | String c r =>
      if is_underscore c
      then if in_run then squeeze_underscores true r
           else String "_" (squeeze_underscores true r)
      else String c (squeeze_underscores false r)
  end.

Definition suggest_snake_case (key : string) : string :=
  let s1 := sub_underscore hump_at 0 key in
  let s2 := lower (sub_underscore boundary_at 0 s1) in
  let s3 := squeeze_underscores false s2 in
  strip is_underscore s3.

(** *** Sorting *)

(** [sorted] on strings: ascending code points.  Keys of a dictionary
    are distinct, so the result is the one sorted arrangement. *)
Definition sorted (ks : list string) : list string :=
  merge_sort String.le ks.

(** The loop [for key in ...: sorted_data[key] = data[key]]. *)
Fixpoint copy_keys (data : dict string) (ks : list string)
    (sorted_data : dict string) : option (dict string) :=
  match ks with
  | [] => Some sorted_data
  | key :: ks' =>
      v ← get data key;
      copy_keys data ks' (set sorted_data key v)
  end.

(** [None] stands for a [KeyError]. *)
Definition sort_keys_alphabetically (data : dict string)
  : option (dict string) :=
  sorted_data ←
    (if mem schema_key data
     then v ← get data schema_key; Some (set [] schema_key v)
     else Some []);
  copy_keys data (sorted (filter (λ k, k ≠ schema_key) (keys data)))
    sorted_data.

(** *** Comparing two tables *)

(** [set(k for k in data.keys() if k != "$schema")] *)
Definition key_set {V} (data : dict V) : gset string :=
  list_to_set (filter (λ k, k ≠ schema_key) (keys data)).

Definition find_missing_keys (sv_data en_data : dict string)
  : gset string * gset string :=
  let sv_keys := key_set sv_data in
  let en_keys := key_set en_data in
  let missing_in_en := sv_keys ∖ en_keys in
  let missing_in_sv := en_keys ∖ sv_keys in
  (missing_in_en, missing_in_sv).

Definition find_naming_violations (data : dict string)
  : list (string * string) :=
  foldl (λ violations kv,
           let key := kv.1 in
           if decide (key = schema_key) then violations
           else if negb (validate_snake_case key)
                then (violations ++ [(key, suggest_snake_case key)])%list
                else violations)
        [] data.

(** The three [continue] tests of the loop body, in order. *)
Definition skipped_value (value : string) : bool :=
  (is_empty value || is_empty (strip is_space value))
  || (String.length (strip is_space value) <=? 1)%nat
  || (contains "[TODO" value || contains "TODO" value).

Definition group_values (data : dict string) : dict (list string) :=
  foldl (λ value_to_keys kv,
           let '(key, value) := kv in
           if decide (key = schema_key) then value_to_keys
           else if skipped_value value then value_to_keys
                else append_item value_to_keys value key)
        [] data.

Definition find_duplicate_values (data : dict string)
  : dict (list string) :=
  filter (λ vk : string * list string, (1 < List.length vk.2)%nat)
    (group_values data).

(** *** Writing a table *)

Section save.
(** [Path.with_suffix] and the text [json.dump] produces belong to
    the Python library. *)
Variable with_suffix : string → string → string.
Variable json_dump : dict string → string.

Definition backup_of (file_path : string) : string :=
  with_suffix file_path ".json.backup".

(** The [try] block. *)
Definition save_try (fs : FS.t) (file_path : string)
    (data : dict string) (f : FS.fault) : FS.outcome :=
  let backed_up :=
    if FS.exists_ fs file_path
    then match f with
         | FS.RenameFails => FS.Raised fs
         | _ => FS.Done (FS.rename fs file_path (backup_of file_path))
         end
    else FS.Done fs in
  match backed_up with
  | FS.Raised fs1 => FS.Raised fs1
  | FS.Done fs1 =>
      match f with
      | FS.OpenFails => FS.Raised fs1
      | FS.DumpFails written => FS.Raised (<[file_path := written]> fs1)
      | _ =>
          let fs2 := <[file_path := json_dump data +:+ LF]> fs1 in
          if FS.exists_ fs2 (backup_of file_path)
          then match f with
               | FS.UnlinkFails => FS.Raised fs2
               | _ => FS.Done (FS.unlink fs2 (backup_of file_path))
               end
          else FS.Done fs2
      end
  end.

Definition save_json (fs : FS.t) (file_path : string)
    (data : dict string) (dry_run : bool) (f : FS.fault)
  : FS.t * bool :=
  if dry_run then (fs, true)
  else match save_try fs file_path data f with
       | FS.Done fs' => (fs', true)
       | FS.Raised fs' =>
           let backup_path := backup_of file_path in
           (if FS.exists_ fs' backup_path
            then FS.rename fs' backup_path file_path
            else fs', false)
       end.
End save.

(** *** The command *)

Record options := {
  check : bool;
  add_keys : bool;
  fix_ : bool;
  auto_fix : bool;
  dry_run : bool
}.

(** Truth value of a set, a list, a dictionary: not empty. *)
Definition set_truth (s : gset string) : bool := bool_decide (s ≠ ∅).
Definition list_truth {A} (l : list A) : bool :=
  match l with [] => false | _ => true end.

(** The exit status of the report-only branch of [main]. *)
Definition check_exit_status (sv_data en_data : dict string) : Z :=
  let '(missing_in_en, missing_in_sv) := find_missing_keys sv_data en_data in
  let sv_violations := find_naming_violations sv_data in
  let en_violations := find_naming_violations en_data in
  let sv_duplicates := find_duplicate_values sv_data in
  let en_duplicates := find_duplicate_values en_data in
  let has_issues :=
    set_truth missing_in_en || set_truth missing_in_sv
    || list_truth sv_violations || list_truth en_violations in
  let has_warnings :=
    list_truth sv_duplicates || list_truth en_duplicates in
  if negb has_issues && negb has_warnings then 0%Z
  else if has_issues then 1%Z else 0%Z.

(** The loop [for key in missing: data[key] = placeholder], the keys
    taken in the order [order]. *)
Definition add_placeholders (order : list string) (data : dict string)
    (placeholder : string) : dict string :=
  foldl (λ d key, set d key placeholder) data order.

Section apply.
(** The order in which a [for] loop visits a set. *)
Variable iter : gset string → list string.

(** The operation the specification calls [merge_missing]: the
    target receives the placeholder for every key of the reference
    it lacks. *)
Definition merge_missing (reference target : dict string)
    (placeholder : string) : dict string :=
  add_placeholders (iter (find_missing_keys reference target).1)
    target placeholder.

(** The "Add missing keys" block of [main]: both directions, the two
    sets computed beforehand.  The result is the pair
    [(sv_data, en_data)] and whether anything was modified. *)
Definition add_missing_keys (sv_data en_data : dict string)
  : dict string * dict string * bool :=
  let '(missing_in_en, missing_in_sv) := find_missing_keys sv_data en_data in
  let en_data' :=
    if set_truth missing_in_en
    then add_placeholders (iter missing_in_en) en_data "[TODO: translate]"
    else en_data in
  let sv_data' :=
    if set_truth missing_in_sv
    then add_placeholders (iter missing_in_sv) sv_data
           ("[TODO: " +:+ String (ascii_of_N 246) "vers"
              +:+ String (ascii_of_N 228) "tt]")
    else sv_data in
  (sv_data', en_data', set_truth missing_in_en || set_truth missing_in_sv).
End apply.

(** [main] from the point where both tables are loaded: the exit status
    and the file system it leaves, [None] when the sort raises KeyError.
    [f_sv] and [f_en] say what goes wrong inside the [try] block of the
    two calls of [save_json]; a rename that fails in the [except] block
    is not among these faults. *)
Section main.
Variable iter : gset string → list string.
Variable with_suffix : string → string → string.
Variable json_dump : dict string → string.

(** The test of the report-only branch. *)
Definition report_only (o : options) : bool :=
  check o || negb (add_keys o || fix_ o || auto_fix o).

Definition main (o : options) (sv_path en_path : string)
    (sv_data en_data : dict string) (fs : FS.t) (f_sv f_en : FS.fault)
  : option (Z * FS.t) :=
  if report_only o then Some (check_exit_status sv_data en_data, fs)
  else
    let '(sv_data, en_data, modified) :=
      if add_keys o || fix_ o || auto_fix o
      then add_missing_keys iter sv_data en_data
      else (sv_data, en_data, false) in
    tables ←
      (if modified || auto_fix o
       then sv ← sort_keys_alphabetically sv_data;
            en ← sort_keys_alphabetically en_data;
            Some (sv, en)
       else Some (sv_data, en_data));
    if modified
    then
      let '(fs1, sv_saved) :=
        save_json with_suffix json_dump fs sv_path tables.1 (dry_run o) f_sv in
      let '(fs2, en_saved) :=
        save_json with_suffix json_dump fs1 en_path tables.2 (dry_run o) f_en in
      if sv_saved && en_saved then Some (0%Z, fs2) else Some (2%Z, fs2)
    else Some (0%Z, fs).
End main.

(** *** Parameters of a translation *)

(** Does the pattern of [extract_parameters] (an opening brace, a
    greedy run of one or more word characters as group 1, a closing
    brace) match at [String c r]?  The answer is group 1.  A shorter run
    would be followed by a word character, never by the brace. *)
Definition param_at (c : ascii) (r : string) : option string :=
  if bool_decide (c = "{"%char)
  then match span is_word r, after_span is_word r with
       | String _ _ as name, String d _ =>
           if bool_decide (d = "}"%char) then Some name else None
       | _, _ => None
       end
  else None.

(** [re.findall] with that pattern. *)
Fixpoint findall_params (skip : nat) (value : string) : list string :=
  match value with
  | "" => []
  | String c r =>
      match skip with
      | S n => findall_params n r
      | O =>
          match param_at c r with
          | Some name => name :: findall_params (S (String.length name)) r
          | None => findall_params 0 r
          end
      end
  end.

Definition extract_parameters (value : string) : gset string :=
  list_to_set (findall_params 0 value).

(** *** Locating the two files *)

Section locate.
(** Paths and what the scripts ask of them: [Path(s)], the [/] of
    pathlib, [Path.exists], [Path.cwd()], and the value of the
    environment variable WORKSPACE_ROOT. *)
Variable path : Type.
Variable Path : string → path.
Variable joinpath : path → string → path.
Variable path_exists : path → bool.
Variable cwd : path.
Variable workspace_root_env : option string.

Definition find_workspace_root : path :=
  if path_exists (Path "/workspace") && path_exists (Path "/workspace/frontend")
  then Path "/workspace"
  else match workspace_root_env with
       | Some v => if negb (is_empty v) then Path v else cwd
       | None => cwd
       end.

(** The loop over the candidate locations. *)
Fixpoint first_complete (locations : list path) : option (path * path) :=
  match locations with
  | [] => None
  | loc :: rest =>
      let sv_file := joinpath loc "sv.json" in
      let en_file := joinpath loc "en.json" in
      if path_exists sv_file && path_exists en_file
      then Some (sv_file, en_file)
      else first_complete rest
  end.

Definition find_translation_files : path * path :=
  let workspace := find_workspace_root in
  let locations :=
    [ joinpath workspace "frontend/apps/web/messages";
      joinpath workspace "apps/web/messages";
      joinpath workspace "messages" ] in
  match first_complete locations with
  | Some files => files
  | None =>
      (joinpath workspace "frontend/apps/web/messages/sv.json",
       joinpath workspace "frontend/apps/web/messages/en.json")
  end.

End locate.

End Sync.

(** ** i18n-extract.py *)

Module Extract.
Import PyStr PyDict.

(** Does the pattern of [extract_translation_keys] (a word boundary,
    "m.", one of [[a-z]], a greedy run of [[a-z0-9_]], a word boundary)
    match at [String c r], where [prev_word] tells whether the character
    before is a word character (false at the start of the line)?  The
    answer is group 1.  The greedy run is followed by the end of the
    line or by a character outside the class of word characters; a
    shorter run would be followed by a character of the run, so no
    backtracking succeeds. *)
Definition key_at (prev_word : bool) (c : ascii) (r : string)
  : option string :=
  if negb prev_word && bool_decide (c = "m"%char)
  then match r with
       | String d (String k0 r') =>
           if bool_decide (d = "."%char) && is_lower_az k0
              && match after_span is_snake_body r' with
                 | "" => true
                 | String a _ => negb (is_word a)
                 end
           then Some (String k0 (span is_snake_body r'))
           else None
       | _ => None
       end
  else None.

(** [pattern.findall(line)]: matches leftmost first, not overlapping;
    [skip] counts the characters of the current match still to pass. *)
Fixpoint findall_from (prev_word : bool) (skip : nat) (line : string)
  : list string :=
  match line with
  | "" => []
  | String c r =>
      match skip with
      | S n => findall_from (is_word c) n r
      | O =>
          match key_at prev_word c r with
          | Some key =>
              key :: findall_from (is_word c) (S (String.length key)) r
          | None => findall_from (is_word c) 0 r
          end
      end
  end.

Definition findall (line : string) : list string :=
  findall_from false 0 line.

(** [enumerate(lines, start=1)] *)
Definition enumerate1 (lines : list string) : list (nat * string) :=
  zip (seq 1 (List.length lines)) lines.

(** The file is given by what [read_text] returns, [None] when it
    raises: the keys found are then none. *)
Definition extract_translation_keys (content : option string)
  : dict (list nat) :=
  match content with
  | None => []
  | Some content =>
      let lines := split_lines content in
      foldl (λ keys_found nl,
               let '(line_num, line) := nl in
               foldl (λ found key, append_item found key line_num)
                     keys_found (findall line))
            [] (enumerate1 lines)
  end.

(** [svelte_files] pairs the path of each file, relative to the working
    directory, with its content: the scan of files whose path
    [relative_to] can express.  For a file with a key whose path is not
    under the working directory as written, [relative_to] raises
    ValueError and the scan does not return. *)
Definition scan_all_svelte_files
    (svelte_files : list (string * option string))
  : gset string * dict (dict (list nat)) :=
  foldl (λ acc file,
           let '(path, content) := file in
           let keys_in_file := extract_translation_keys content in
           foldl (λ acc' kl,
                    let '(used_keys, key_locations) := acc' in
                    let '(key, line_numbers) := kl in
                    ({[key]} ∪ used_keys,
                     set key_locations key
                       (set (default [] (get key_locations key))
                            path line_numbers)))
                 acc keys_in_file)
        (∅, []) svelte_files.

(** The exit test that ends [main], on the sets [main] computes from
    the two tables and from the set of used keys the scan has returned.
    It says nothing of a run in which the scan does not return. *)
Definition exit_code (sv_data en_data : dict string)
    (used_keys : gset string) : Z :=
  let sv_keys := Sync.key_set sv_data in
  let en_keys := Sync.key_set en_data in
  let all_translation_keys := sv_keys ∪ en_keys in
  let missing_keys := used_keys ∖ all_translation_keys in
  let total_missing := size missing_keys in
  if (0 <? total_missing)%nat then 1%Z else 0%Z.

(** *** The reports of [main] *)

(** [l[:limit]] *)
Definition slice_to {A} (limit : Z) (l : list A) : list A :=
  if (0 <=? limit)%Z then take (Z.to_nat limit) l
  else take (List.length l - Z.to_nat (- limit)) l.

(** The label of an unused key. *)
Definition location_label (in_sv in_en : bool) : string :=
  if in_sv && in_en then "sv + en"
  else if in_sv then "sv only"
  else if in_en then "en only"
  else "".

(** The unused-keys report, printed when there are unused keys: the
    keys listed with their labels, and the number announced as
    "... and N more", if any.  [None] when every key is used. *)
Definition unused_report (sv_data en_data : dict string)
    (used_keys : gset string) (limit : Z)
  : option (list (string * string) * option Z) :=
  let sv_keys := Sync.key_set sv_data in
  let en_keys := Sync.key_set en_data in
  let all_translation_keys := sv_keys ∪ en_keys in
  let unused_keys := all_translation_keys ∖ used_keys in
  if bool_decide (unused_keys = ∅) then None
  else
    let sorted_unused := Sync.sorted (elements unused_keys) in
    Some ((λ key, (key, location_label (bool_decide (key ∈ sv_keys))
                                       (bool_decide (key ∈ en_keys))))
            <$> slice_to limit sorted_unused,
          if (limit <? Z.of_nat (size unused_keys))%Z
          then Some (Z.of_nat (size unused_keys) - limit)%Z else None).

(** One entry of the missing-keys report: the key alone, the key with
    the first place it is used, or an index out of range. *)
Inductive missing_line :=
| KeyOnly
| UsedIn (first_file : string) (first_line : nat) (more_files : nat)
| IndexError.

Definition missing_entry (key_locations : dict (dict (list nat)))
    (key : string) : missing_line :=
  match get key_locations key with
  | Some locations =>
      match head (keys locations) with
      | Some first_file =>
          match get locations first_file with
          | Some lines =>
              match head lines with
              | Some first_line =>
                  UsedIn first_file first_line (List.length locations - 1)
              | None => IndexError
              end
          | None => IndexError
          end
      | None => IndexError
      end
  | None => KeyOnly
  end.

End Extract.

(** ** Views of the loops, used to state and prove the properties *)

Module View.
Import PyStr PyDict.

(** What the loop of [find_naming_violations] reports for one entry: the
    loop is a filter, an entry is listed exactly when its key is not the
    schema key and fails the pattern. *)
Definition violation_of (kv : string * string) : option (string * string) :=
  if decide (kv.1 = schema_key) then None
  else if Sync.validate_snake_case kv.1 then None
       else Some (kv.1, Sync.suggest_snake_case kv.1).

(** The entries of [data] for the keys [ks], in the order of [ks]. *)
Definition entries_of (data : dict string) (ks : list string) : dict string :=
  omap (λ k, pair k <$> get data k) ks.

(** The entry of the schema key, when there is one. *)
Definition schema_entry (data : dict string) : dict string :=
  match get data schema_key with
  | Some v => [(schema_key, v)]
  | None => []
  end.

(** The keys other than the schema key, sorted. *)
Definition other_keys (data : dict string) : list string :=
  Sync.sorted (filter (λ k, k ≠ schema_key) (keys data)).

(** What [sort_keys_alphabetically] builds: the schema entry, then the
    other entries in ascending order of their keys. *)
Definition normal_form (data : dict string) : dict string :=
  schema_entry data ++ entries_of data (other_keys data).

(** The keys of the translations of [table] whose text is [value], in
    table order. *)
Definition keys_of_value (table : dict string) (value : string)
  : list string :=
  (filter (λ kv : string * string, kv.1 ≠ schema_key ∧ kv.2 = value) table).*1.

(** The keys the grouping loop files under [value]: none when the value
    is one the loop passes over. *)
Definition grouped_keys (table : dict string) (value : string)
  : list string :=
  if Sync.skipped_value value then [] else keys_of_value table value.

(** A group after more keys were appended to it; a group is created by
    its first key. *)
Definition extend_group (group : option (list string)) (ks : list string)
  : option (list string) :=
  match group with
  | Some l => Some (l ++ ks)
  | None => match ks with [] => None | _ => Some ks end
  end.

(** The loop of [extract_translation_keys] over the lines [lines], the
    first of them numbered [start], from the keys [found] so far. *)
Definition scan_lines (start : nat) (lines : list string)
    (found : dict (list nat)) : dict (list nat) :=
  foldl (λ keys_found nl,
           let '(line_num, line) := nl in
           foldl (λ found key, append_item found key line_num)
                 keys_found (Extract.findall line))
        found (zip (seq start (List.length lines)) lines).

(** The index of [scan_all_svelte_files] read as the specification
    describes it: the (file, line) pairs recorded for [key], file by
    file and line by line. *)
Definition locations (key_locations : dict (dict (list nat)))
    (key : string) : list (string * nat) :=
  default [] (get key_locations key) ≫= λ fl, (λ n, (fl.1, n)) <$> fl.2.

(** The characters of an ASCII identifier: [[A-Za-z0-9_]]. *)
Definition is_ident_char (c : ascii) : bool :=
  is_lower_az c || is_upper_AZ c || is_digit09 c || is_underscore c.

(** Does [s] start with a character of [p]? *)
Definition starts_with (p : ascii → bool) (s : string) : bool :=
  match s with
  | "" => false
  | String c _ => p c
  end.

(** The first [n] characters of [s] are not opening braces. *)
Fixpoint brace_free (n : nat) (s : string) : bool :=
  match n, s with
  | S n', String c r => negb (bool_decide (c = "{"%char)) && brace_free n' r
  | _, _ => true
  end.

(** The directory [loc] holds both translation files. *)
Definition holds_both {path : Type} (joinpath : path → string → path)
    (path_exists : path → bool) (loc : path) : bool :=
  path_exists (joinpath loc "sv.json") && path_exists (joinpath loc "en.json").

(** The numbers of the lines of [lines] on which the scanner finds
    [key], once for every time it finds it, the first line being
    numbered [start]. *)
Fixpoint line_hits (key : string) (start : nat) (lines : list string)
  : list nat :=
  match lines with
  | [] => []
  | l :: ls =>
      replicate (List.length (filter (λ k, k = key) (Extract.findall l))) start
      ++ line_hits key (S start) ls
  end.

(** An entry of a [defaultdict(list)] after [xs] was appended to it. *)
Definition extend_entry {A} (entry : option (list A)) (xs : list A)
  : option (list A) :=
  match entry with
  | Some l => Some (l ++ xs)
  | None => match xs with [] => None | _ => Some xs end
  end.

End View.

(** Case analysis on the 256 characters. *)
Ltac each_char c :=
  destruct c as [[] [] [] [] [] [] [] []]; vm_compute; intuition congruence.

(** ** Properties *)

Import PyStr PyDict View.

(** *** Characters *)

Lemma snake_body_not_upper c : is_snake_body c = true → is_upper c = false.
Proof. each_char c. Qed.

Lemma newline_not_upper c : is_newline c = true → is_upper c = false.
Proof. each_char c. Qed.

Lemma lower_az_not_upper c : is_lower_az c = true → is_upper c = false.
Proof. each_char c. Qed.

Lemma upper_AZ_is_upper c : is_upper_AZ c = true → is_upper c = true.
Proof. each_char c. Qed.

Lemma digit_not_lower_az c : is_digit09 c = true → is_lower_az c = false.
Proof. each_char c. Qed.

Lemma digit_not_underscore c : is_digit09 c = true → is_underscore c = false.
Proof. each_char c. Qed.

Lemma digit_lower_char c : is_digit09 c = true → lower_char c = c.
Proof. each_char c. Qed.

(** *** The naming convention *)

Section naming.
Import Sync.

Lemma snake_tail_no_upper s :
  snake_tail s = true → PyStr.existsb is_upper s = false.
Proof.
  induction s as [|c r IH]; simpl; [done|].
  intros [[Hc Hr]%andb_true_iff | [Hc Hr]%andb_true_iff]%orb_true_iff.
  - by rewrite (snake_body_not_upper c Hc), IH.
  - destruct r; [|done]. by rewrite (newline_not_upper c Hc).
Qed.

Lemma validate_no_upper key :
  validate_snake_case key = true → PyStr.existsb is_upper key = false.
Proof.
  destruct key as [|c r]; simpl; [done|].
  intros [Hc Hr]%andb_true_iff.
  by rewrite (lower_az_not_upper c Hc), (snake_tail_no_upper r Hr).
Qed.

(** A key written with a lower-case letter and then only characters of
    [[a-z0-9_]] is accepted. *)
Lemma validate_strict_shape c r :
  is_lower_az c = true → PyStr.existsb (λ x, negb (is_snake_body x)) r = false →
  validate_snake_case (String c r) = true.
Proof.
  intros Hc Hr. simpl. rewrite Hc. simpl.
  induction r as [|x r IH]; simpl in *; [done|].
  apply orb_false_iff in Hr as [Hx Hr].
  apply negb_false_iff in Hx. by rewrite Hx, (IH Hr).
Qed.

(** The pattern also accepts one line feed after such a key. *)
Example validate_trailing_newline :
  validate_snake_case (String "a" (String (ascii_of_N 10) "")) = true.
Proof. reflexivity. Qed.

Lemma find_naming_violations_loop (data : dict string) acc :
  foldl (λ violations kv,
           let key := kv.1 in
           if decide (key = schema_key) then violations
           else if negb (validate_snake_case key)
                then (violations ++ [(key, suggest_snake_case key)])%list
                else violations)
        acc data
  = (acc ++ omap violation_of data)%list.
Proof.
  revert acc. induction data as [|kv data IH]; intros acc; simpl.
  { by rewrite app_nil_r. }
  rewrite IH. unfold violation_of.
  destruct (decide (kv.1 = schema_key)); [done|].
  destruct (validate_snake_case kv.1); simpl; [done|].
  by rewrite <- app_assoc.
Qed.

Lemma find_naming_violations_omap (data : dict string) :
  find_naming_violations data = omap violation_of data.
Proof. apply (find_naming_violations_loop data []). Qed.

Lemma elem_of_naming_violations (data : dict string) key :
  key ∈ (find_naming_violations data).*1 ↔
  key ∈ keys data ∧ key ≠ schema_key ∧ validate_snake_case key = false.
Proof.
  rewrite find_naming_violations_omap. unfold keys.
  rewrite !list_elem_of_fmap. split.
  - intros [[k s] [-> Hin]]. apply list_elem_of_omap in Hin as [kv [Hkv Hv]].
    unfold violation_of in Hv.
    destruct (decide (kv.1 = schema_key)); [done|].
    destruct (validate_snake_case kv.1) eqn:E; [done|].
    injection Hv as <- <-. simpl. split_and!; [|done..]. by exists kv.
  - intros ([kv [-> Hkv]] & Hne & Hv).
    exists (kv.1, suggest_snake_case kv.1). split; [done|].
    apply list_elem_of_omap. exists kv. split; [done|].
    unfold violation_of. rewrite Hv. by destruct (decide (kv.1 = schema_key)).
Qed.

(** *** The suggestion keeps the first character of a digit-led key *)

Lemma sub_underscore_head m c r :
  ∃ r', sub_underscore m 0 (String c r) = String c r'.
Proof. simpl. destruct (m c r); eauto. Qed.

Lemma suggest_leading_digit c r :
  is_digit09 c = true → ∃ r', suggest_snake_case (String c r) = String c r'.
Proof.
  intros Hc. unfold suggest_snake_case.
  destruct (sub_underscore_head hump_at c r) as [r1 ->].
  destruct (sub_underscore_head boundary_at c r1) as [r2 ->].
  simpl. rewrite (digit_lower_char c Hc), (digit_not_underscore c Hc).
  unfold strip. simpl. rewrite (digit_not_underscore c Hc). simpl.
  rewrite (digit_not_underscore c Hc). simpl. eauto.
Qed.
End naming.

(** C7: a key that matches the pattern is never listed by
    [find_naming_violations], whatever the table, and a key of the table
    that contains an upper-case letter always is. *)
Theorem naming_violations_by_pattern (table : dict string) (key : string) :
  (Sync.validate_snake_case key = true →
   key ∉ (Sync.find_naming_violations table).*1)
  ∧ (key ∈ keys table → PyStr.existsb is_upper key = true →
     key ∈ (Sync.find_naming_violations table).*1).
Proof.
  split.
  - intros Hv (_ & _ & Hf)%elem_of_naming_violations. congruence.
  - intros Hin Hup. apply elem_of_naming_violations. split_and!; [done|..].
    + intros ->. by vm_compute in Hup.
    + destruct (Sync.validate_snake_case key) eqn:E; [|done].
      apply validate_no_upper in E. congruence.
Qed.

Lemma naming_violations_by_pattern_witness :
  ("bye" ∉ (Sync.find_naming_violations [("bye", "Hej"); ("helloWorld", "Hej")]).*1)
  ∧ ("helloWorld" ∈ (Sync.find_naming_violations [("bye", "Hej"); ("helloWorld", "Hej")]).*1).
Proof.
  split.
  - apply (naming_violations_by_pattern [("bye", "Hej"); ("helloWorld", "Hej")] "bye").
    reflexivity.
  - apply (naming_violations_by_pattern [("bye", "Hej"); ("helloWorld", "Hej")] "helloWorld").
    + unfold keys. simpl. apply list_elem_of_further, list_elem_of_here.
    + reflexivity.
Defined.

(** C10: the suggestion for "123Abc" is "123_abc", and neither passes the
    pattern; more generally the suggestion for a key that starts with a
    digit starts with that digit, so it is a naming violation too. *)
Theorem suggestion_for_digit_led_key :
  Sync.suggest_snake_case "123Abc" = "123_abc"
  ∧ Sync.validate_snake_case "123Abc" = false
  ∧ Sync.validate_snake_case "123_abc" = false
  ∧ ∀ c r, is_digit09 c = true →
      Sync.validate_snake_case (String c r) = false
      ∧ Sync.validate_snake_case (Sync.suggest_snake_case (String c r)) = false.
Proof.
  split_and!; [reflexivity..|].
  intros c r Hc. split.
  - simpl. by rewrite (digit_not_lower_az c Hc).
  - destruct (suggest_leading_digit c r Hc) as [r' ->].
    simpl. by rewrite (digit_not_lower_az c Hc).
Qed.

Lemma suggestion_for_digit_led_key_witness :
  Sync.validate_snake_case (Sync.suggest_snake_case "9Lives") = false.
Proof.
  apply (proj2 (proj2 (proj2 suggestion_for_digit_led_key)) "9"%char "Lives").
  reflexivity.
Defined.


(** *** Comparing two tables *)

(** C8: the two components returned by [find_missing_keys] never share a
    key. *)
Theorem find_missing_keys_disjoint (A B : dict string) :
  (Sync.find_missing_keys A B).1 ∩ (Sync.find_missing_keys A B).2 = ∅.
Proof.
  unfold Sync.find_missing_keys; simpl. set_solver.
Qed.

(** *** Dictionaries *)

Section dict_facts.
Context {V : Type}.
Implicit Types (d : dict V) (k : string) (v : V).

Lemma get_None d k : get d k = None ↔ k ∉ keys d.
Proof.
  unfold keys. induction d as [|[k' v'] d IH]; simpl.
  - split; [intros _; apply not_elem_of_nil | done].
  - rewrite not_elem_of_cons. destruct (decide (k' = k)) as [->|Hne].
    + split; [done | by intros [? _]].
    + rewrite IH. naive_solver.
Qed.

Lemma get_Some_keys d k v : get d k = Some v → k ∈ keys d.
Proof.
  intros H. destruct (decide (k ∈ keys d)) as [|Hn]; [done|].
  apply get_None in Hn. congruence.
Qed.

Lemma get_is_Some d k : is_Some (get d k) ↔ k ∈ keys d.
Proof.
  rewrite <- not_eq_None_Some, get_None.
  destruct (decide (k ∈ keys d)); naive_solver.
Qed.

Lemma get_Some_elem d k v : get d k = Some v → (k, v) ∈ d.
Proof.
  induction d as [|[k' v'] d IH]; simpl; [done|].
  destruct (decide (k' = k)) as [->|Hne].
  - intros [= ->]. apply list_elem_of_here.
  - intros H. apply list_elem_of_further. auto.
Qed.

Lemma elem_get_wf d k v : dict_wf d → (k, v) ∈ d → get d k = Some v.
Proof.
  unfold dict_wf, keys. induction d as [|[k' v'] d IH]; simpl.
  - intros _ H. by apply elem_of_nil in H.
  - intros [Hnin Hnd]%NoDup_cons [[= -> ->] | Hin]%elem_of_cons.
    + by rewrite decide_True.
    + rewrite decide_False; [auto|].
      intros ->. apply Hnin. apply list_elem_of_fmap. by exists (k, v).
Qed.

Lemma get_set_eq d k v : get (set d k v) k = Some v.
Proof.
  induction d as [|[k' v'] d IH]; simpl.
  - by rewrite decide_True.
  - destruct (decide (k' = k)) as [->|Hne]; simpl.
    + by rewrite decide_True.
    + by rewrite decide_False.
Qed.

Lemma get_set_ne d k k' v : k ≠ k' → get (set d k v) k' = get d k'.
Proof.
  intros Hne. induction d as [|[k0 v0] d IH]; simpl.
  - by rewrite decide_False.
  - destruct (decide (k0 = k)) as [->|Hne0]; simpl.
    + by rewrite !decide_False.
    + by rewrite IH.
Qed.

Lemma set_fresh d k v : k ∉ keys d → set d k v = d ++ [(k, v)].
Proof.
  unfold keys. induction d as [|[k0 v0] d IH]; simpl; [done|].
  intros [Hne Hnin]%not_elem_of_cons.
  rewrite decide_False by done. by rewrite IH.
Qed.

Lemma keys_set_present d k v : k ∈ keys d → keys (set d k v) = keys d.
Proof.
  unfold keys. induction d as [|[k0 v0] d IH]; csimpl.
  - intros H. by apply elem_of_nil in H.
  - intros Hin. destruct (decide (k0 = k)) as [->|Hne]; csimpl; [done|].
    apply elem_of_cons in Hin as [->|Hin]; [done|]. by rewrite IH.
Qed.

Lemma keys_set d k v :
  keys (set d k v) = if decide (k ∈ keys d) then keys d else keys d ++ [k].
Proof.
  destruct (decide (k ∈ keys d)) as [Hin|Hnin].
  - by apply keys_set_present.
  - rewrite set_fresh by done. unfold keys. by rewrite fmap_app.
Qed.

Lemma elem_of_keys_set d k v k' :
  k' ∈ keys (set d k v) ↔ k' = k ∨ k' ∈ keys d.
Proof.
  rewrite keys_set. destruct (decide (k ∈ keys d)).
  - naive_solver.
  - rewrite elem_of_app, list_elem_of_singleton. naive_solver.
Qed.

Lemma dict_wf_set d k v : dict_wf d → dict_wf (set d k v).
Proof.
  unfold dict_wf. rewrite keys_set. destruct (decide (k ∈ keys d)); [done|].
  intros Hnd. apply NoDup_app. split_and!; [done| |apply NoDup_singleton].
  intros x Hx ->%list_elem_of_singleton. done.
Qed.

End dict_facts.

Lemma elem_of_key_set {V} (d : dict V) k :
  k ∈ Sync.key_set d ↔ k ∈ keys d ∧ k ≠ schema_key.
Proof.
  unfold Sync.key_set. rewrite elem_of_list_to_set, list_elem_of_filter.
  naive_solver.
Qed.

(** *** Adding the missing keys *)

Section placeholders.
Implicit Types (d : dict string) (k p : string) (order : list string).

Lemma get_add_placeholders order d p k :
  get (Sync.add_placeholders order d p) k =
  if decide (k ∈ order) then Some p else get d k.
Proof.
  unfold Sync.add_placeholders. revert d.
  induction order as [|k0 order IH]; intros d; cbn [foldl].
  - rewrite decide_False; [done | apply not_elem_of_nil].
  - rewrite IH. destruct (decide (k ∈ order)) as [Hin|Hnin].
    + rewrite decide_True; [done | by apply list_elem_of_further].
    + destruct (decide (k0 = k)) as [->|Hne].
      * rewrite decide_True by apply list_elem_of_here. apply get_set_eq.
      * rewrite decide_False by (rewrite elem_of_cons; naive_solver).
        by apply get_set_ne.
Qed.

Lemma elem_of_keys_add_placeholders order d p k :
  k ∈ keys (Sync.add_placeholders order d p) ↔ k ∈ keys d ∨ k ∈ order.
Proof.
  rewrite <- !get_is_Some, get_add_placeholders.
  destruct (decide (k ∈ order)); [naive_solver|].
  split; [auto | by intros [?|?]].
Qed.


Lemma key_set_add_placeholders order d p :
  Sync.key_set (Sync.add_placeholders order d p)
  = Sync.key_set d ∪ (list_to_set order ∖ {[schema_key]}).
Proof.
  apply set_eq. intros k.
  rewrite elem_of_union, elem_of_difference, !elem_of_key_set,
    elem_of_keys_add_placeholders, elem_of_list_to_set, elem_of_singleton.
  naive_solver.
Qed.
End placeholders.

Section merge.
(** Any order in which the interpreter may visit a set. *)
Variable iter : gset string → list string.
Hypothesis iter_enumerates : ∀ s, iter s ≡ₚ elements s.

Implicit Types (reference target : dict string) (placeholder : string).

Lemma elem_of_iter s k : k ∈ iter s ↔ k ∈ s.
Proof. by rewrite iter_enumerates, elem_of_elements. Qed.

Lemma iter_empty : iter ∅ = [].
Proof.
  apply Permutation_nil_r. by rewrite iter_enumerates, elements_empty.
Qed.

Lemma list_to_set_iter s : list_to_set (iter s) = s.
Proof. apply set_eq. intros k. by rewrite elem_of_list_to_set, elem_of_iter. Qed.


Lemma key_set_merge_missing reference target placeholder :
  Sync.key_set (Sync.merge_missing iter reference target placeholder)
  = Sync.key_set target ∪ Sync.key_set reference.
Proof.
  unfold Sync.merge_missing.
  rewrite key_set_add_placeholders, list_to_set_iter.
  unfold Sync.find_missing_keys. simpl.
  apply set_eq. intros k.
  rewrite !elem_of_union, !elem_of_difference, !elem_of_key_set, elem_of_singleton.
  destruct (decide (k ∈ keys target)); naive_solver.
Qed.

(** The test [if missing:] before each loop changes nothing: on the
    empty set the loop does not run. *)
Lemma guarded_add_placeholders (missing : gset string) d p :
  (if Sync.set_truth missing
   then Sync.add_placeholders (iter missing) d p else d)
  = Sync.add_placeholders (iter missing) d p.
Proof.
  unfold Sync.set_truth. case_bool_decide as Hm; [done|].
  by rewrite Hm, iter_empty.
Qed.

Lemma key_set_fill d (other : gset string) p :
  Sync.key_set (Sync.add_placeholders (iter (other ∖ Sync.key_set d)) d p)
  = Sync.key_set d ∪ other ∖ {[schema_key]}.
Proof.
  rewrite key_set_add_placeholders, list_to_set_iter.
  apply set_eq. intros k.
  rewrite !elem_of_union, !elem_of_difference, elem_of_singleton.
  destruct (decide (k ∈ Sync.key_set d)); naive_solver.
Qed.

Lemma key_set_no_schema {V} (d : dict V) :
  Sync.key_set d ∖ {[schema_key]} = Sync.key_set d.
Proof.
  apply set_eq. intros k.
  rewrite elem_of_difference, elem_of_key_set, elem_of_singleton. naive_solver.
Qed.

Lemma add_missing_keys_key_sets sv_data en_data sv_data' en_data' modified :
  Sync.add_missing_keys iter sv_data en_data = (sv_data', en_data', modified) →
  Sync.key_set sv_data' = Sync.key_set sv_data ∪ Sync.key_set en_data
  ∧ Sync.key_set en_data' = Sync.key_set sv_data ∪ Sync.key_set en_data.
Proof.
  unfold Sync.add_missing_keys, Sync.find_missing_keys.
  rewrite !guarded_add_placeholders. intros [= <- <- _].
  rewrite !key_set_fill, !key_set_no_schema. set_solver.
Qed.


(** C3: after [merge_missing] no key of the reference is missing from
    the target, so a second application changes nothing; the same
    holds for the block of [main] that fills both tables. *)
Theorem merge_missing_idempotent reference target placeholder :
  let once := Sync.merge_missing iter reference target placeholder in
  (Sync.find_missing_keys reference once).1 = ∅
  ∧ Sync.merge_missing iter reference once placeholder = once
  ∧ ∀ sv_data en_data sv_data' en_data' modified,
      Sync.add_missing_keys iter sv_data en_data = (sv_data', en_data', modified) →
      Sync.find_missing_keys sv_data' en_data' = (∅, ∅)
      ∧ Sync.add_missing_keys iter sv_data' en_data' = (sv_data', en_data', false).
Proof.
  simpl.
  assert ((Sync.find_missing_keys reference
             (Sync.merge_missing iter reference target placeholder)).1 = ∅) as Hnone.
  { unfold Sync.find_missing_keys at 1. simpl.
    rewrite key_set_merge_missing. set_solver. }
  split_and!; [done| |].
  - unfold Sync.merge_missing at 1. by rewrite Hnone, iter_empty.
  - intros sv en sv' en' modified [Hsv Hen]%add_missing_keys_key_sets.
    assert (Sync.find_missing_keys sv' en' = (∅, ∅)) as Hboth.
    { unfold Sync.find_missing_keys. rewrite Hsv, Hen. f_equal; set_solver. }
    split; [done|].
    unfold Sync.add_missing_keys. rewrite Hboth.
    unfold Sync.set_truth. by rewrite !bool_decide_eq_false_2 by (by intros []).
Qed.
End merge.


Lemma merge_missing_idempotent_witness :
  let reference := [(schema_key, "x"); ("hello_world", "Hej"); ("bye", "Hej")] in
  let target := [("hello_world", "Hello")] in
  let once := Sync.merge_missing elements reference target "[TODO]" in
  once = [("hello_world", "Hello"); ("bye", "[TODO]")]
  ∧ Sync.merge_missing elements reference once "[TODO]" = once.
Proof.
  split; [by vm_compute|].
  apply (merge_missing_idempotent elements);
  intros s; reflexivity.
Defined.

(** *** Sorting the keys *)

Section sorting.
Implicit Types (data : dict string) (k : string) (ks : list string).

Lemma sorted_Permutation ks : Sync.sorted ks ≡ₚ ks.
Proof. apply merge_sort_Permutation. Qed.

Lemma sorted_StronglySorted ks : StronglySorted String.le (Sync.sorted ks).
Proof. apply StronglySorted_merge_sort; apply _. Qed.

Lemma sorted_fixed ks : StronglySorted String.le ks → Sync.sorted ks = ks.
Proof.
  intros Hs. apply (StronglySorted_unique String.le);
    [apply sorted_StronglySorted | done | apply sorted_Permutation].
Qed.

Lemma elem_of_sorted ks k : k ∈ Sync.sorted ks ↔ k ∈ ks.
Proof. by rewrite sorted_Permutation. Qed.

Lemma get_entries_of data ks k :
  get (entries_of data ks) k = if decide (k ∈ ks) then get data k else None.
Proof.
  unfold entries_of. induction ks as [|k0 ks IH].
  { by rewrite decide_False by apply not_elem_of_nil. }
  csimpl. destruct (get data k0) as [v|] eqn:E0; csimpl.
  - destruct (decide (k0 = k)) as [->|Hne].
    + by rewrite decide_True by apply list_elem_of_here.
    + rewrite IH. repeat case_decide; try done;
        rewrite elem_of_cons in *; naive_solver.
  - rewrite IH. repeat case_decide; try done;
      rewrite elem_of_cons in *; naive_solver.
Qed.

Lemma keys_entries_of data ks :
  (∀ k, k ∈ ks → k ∈ keys data) → keys (entries_of data ks) = ks.
Proof.
  unfold entries_of, keys. induction ks as [|k0 ks IH]; intros Hin; csimpl; [done|].
  destruct (proj2 (get_is_Some data k0)) as [v ->].
  { apply Hin, list_elem_of_here. }
  csimpl. rewrite IH; [done|]. intros k Hk. by apply Hin, list_elem_of_further.
Qed.

Lemma entries_of_ext data data' ks :
  (∀ k, k ∈ ks → get data' k = get data k) →
  entries_of data' ks = entries_of data ks.
Proof.
  unfold entries_of. induction ks as [|k0 ks IH]; intros Hext; csimpl; [done|].
  rewrite (Hext k0) by apply list_elem_of_here.
  rewrite IH; [done|]. intros k Hk. by apply Hext, list_elem_of_further.
Qed.

(** The copying loop appends the entries of the keys it is given, when
    they are distinct keys of [data] not yet copied. *)
Lemma copy_keys_appends data ks acc :
  (∀ k, k ∈ ks → k ∈ keys data) → NoDup ks →
  (∀ k, k ∈ ks → k ∉ keys acc) →
  Sync.copy_keys data ks acc = Some (acc ++ entries_of data ks).
Proof.
  unfold entries_of. revert acc.
  induction ks as [|k0 ks IH]; intros acc Hin Hnd Hfresh; csimpl.
  { by rewrite app_nil_r. }
  apply NoDup_cons in Hnd as [Hk0 Hnd].
  destruct (proj2 (get_is_Some data k0)) as [v Hv].
  { apply Hin, list_elem_of_here. }
  rewrite Hv. csimpl.
  rewrite set_fresh by apply Hfresh, list_elem_of_here.
  rewrite IH; [by rewrite <- app_assoc | | done |].
  - intros k Hk. by apply Hin, list_elem_of_further.
  - intros k Hk. unfold keys. rewrite fmap_app, elem_of_app. csimpl.
    rewrite list_elem_of_singleton. intros [Hacc | ->]; [|done].
    apply (Hfresh k); [by apply list_elem_of_further | done].
Qed.

Lemma schema_entry_keys data :
  keys (schema_entry data) = if decide (schema_key ∈ keys data) then [schema_key] else [].
Proof.
  unfold schema_entry. destruct (get data schema_key) as [v|] eqn:E.
  - rewrite decide_True; [done|]. by apply get_Some_keys in E.
  - rewrite decide_False; [done|]. by apply get_None.
Qed.

Lemma other_keys_spec data k :
  k ∈ other_keys data ↔ k ∈ keys data ∧ k ≠ schema_key.
Proof.
  unfold other_keys. rewrite elem_of_sorted, list_elem_of_filter. naive_solver.
Qed.

Lemma other_keys_NoDup data : dict_wf data → NoDup (other_keys data).
Proof.
  intros Hwf. unfold other_keys. rewrite sorted_Permutation. by apply NoDup_filter.
Qed.

Lemma keys_normal_form data :
  keys (normal_form data) = keys (schema_entry data) ++ other_keys data.
Proof.
  unfold normal_form, keys at 1. rewrite fmap_app. f_equal.
  apply keys_entries_of. by intros k [? _]%other_keys_spec.
Qed.

(** Under the invariant of dictionaries the function returns, and
    what it returns is [normal_form]. *)
Lemma sort_keys_alphabetically_normal_form data :
  dict_wf data → Sync.sort_keys_alphabetically data = Some (normal_form data).
Proof.
  intros Hwf. unfold Sync.sort_keys_alphabetically, normal_form, schema_entry, mem.
  assert (∀ acc, (∀ k, k ∈ keys acc → k = schema_key) →
            Sync.copy_keys data (other_keys data) acc
            = Some (acc ++ entries_of data (other_keys data))) as Hcopy.
  { intros acc Hacc. apply copy_keys_appends.
    - by intros k [? _]%other_keys_spec.
    - by apply other_keys_NoDup.
    - intros k [_ Hne]%other_keys_spec Hk. by apply Hne, Hacc. }
  case_bool_decide as Hs.
  - destruct (proj2 (get_is_Some data schema_key) Hs) as [v ->]. csimpl.
    apply Hcopy. intros k. unfold keys. csimpl.
    by rewrite list_elem_of_singleton.
  - apply get_None in Hs. rewrite Hs. csimpl. apply Hcopy.
    intros k Hk. by apply elem_of_nil in Hk.
Qed.

Lemma elem_of_keys_normal_form data k :
  k ∈ keys (normal_form data) ↔ k ∈ keys data.
Proof.
  rewrite keys_normal_form, elem_of_app, schema_entry_keys, other_keys_spec.
  destruct (decide (k = schema_key)) as [->|Hne]; case_decide;
    rewrite ?list_elem_of_singleton, ?elem_of_nil; naive_solver.
Qed.

Lemma normal_form_wf data : dict_wf data → dict_wf (normal_form data).
Proof.
  intros Hwf. unfold dict_wf. rewrite keys_normal_form, schema_entry_keys.
  apply NoDup_app. split_and!.
  - case_decide; [apply NoDup_singleton | apply NoDup_nil_2].
  - intros k Hk [_ Hne]%other_keys_spec.
    case_decide; [by apply list_elem_of_singleton in Hk | by apply elem_of_nil in Hk].
  - by apply other_keys_NoDup.
Qed.

Lemma get_normal_form data k : get (normal_form data) k = get data k.
Proof.
  unfold normal_form, schema_entry.
  destruct (decide (k = schema_key)) as [->|Hne].
  - destruct (get data schema_key) as [v|] eqn:E; csimpl.
    + by rewrite ?decide_True.
    + rewrite get_entries_of. by case_decide.
  - assert (get (entries_of data (other_keys data)) k = get data k) as Hrest.
    { rewrite get_entries_of. case_decide as Hin; [done|].
      symmetry. apply get_None. intros Hk. apply Hin, other_keys_spec. done. }
    destruct (get data schema_key) as [v|]; csimpl; [|done].
    by rewrite decide_False.
Qed.

Lemma filter_all {A} (P : A → Prop) `{∀ x, Decision (P x)} (l : list A) :
  (∀ x, x ∈ l → P x) → filter P l = l.
Proof.
  induction l as [|x l IH]; intros Hall; [done|].
  rewrite filter_cons_True by apply Hall, list_elem_of_here.
  rewrite IH; [done|]. intros y Hy. by apply Hall, list_elem_of_further.
Qed.

Lemma filter_keys_normal_form data :
  filter (λ k, k ≠ schema_key) (keys (normal_form data)) = other_keys data.
Proof.
  rewrite keys_normal_form, filter_app, schema_entry_keys.
  rewrite (filter_all _ (other_keys data)) by (by intros k [_ ?]%other_keys_spec).
  case_decide; [|done]. by rewrite filter_cons_False by (by intros []).
Qed.

Lemma other_keys_normal_form data :
  other_keys (normal_form data) = other_keys data.
Proof.
  unfold other_keys at 1. rewrite filter_keys_normal_form.
  apply sorted_fixed, sorted_StronglySorted.
Qed.

Lemma normal_form_idem data : normal_form (normal_form data) = normal_form data.
Proof.
  unfold normal_form at 1 3. f_equal.
  - unfold schema_entry. by rewrite get_normal_form.
  - rewrite other_keys_normal_form. apply entries_of_ext.
    intros k _. apply get_normal_form.
Qed.
End sorting.

(** C4: on a dictionary (no repeated key) [sort_keys_alphabetically]
    returns a table; sorting that table again returns it unchanged; it
    has the same keys with the same values; its keys other than the
    schema key are in ascending order; and the schema key, when the table
    has it, comes first. *)
Theorem sort_keys_alphabetically_normalizes (table : dict string) :
  dict_wf table →
  ∃ normal,
    Sync.sort_keys_alphabetically table = Some normal
    ∧ Sync.sort_keys_alphabetically normal = Some normal
    ∧ keys normal ≡ₚ keys table
    ∧ (∀ key, get normal key = get table key)
    ∧ StronglySorted String.le (filter (λ k, k ≠ schema_key) (keys normal))
    ∧ (schema_key ∈ keys table → head (keys normal) = Some schema_key).
Proof.
  intros Hwf. exists (normal_form table). split_and!.
  - by apply sort_keys_alphabetically_normal_form.
  - rewrite sort_keys_alphabetically_normal_form by by apply normal_form_wf.
    by rewrite normal_form_idem.
  - apply NoDup_Permutation; [by apply normal_form_wf | done |].
    apply elem_of_keys_normal_form.
  - apply get_normal_form.
  - rewrite filter_keys_normal_form. apply sorted_StronglySorted.
  - intros Hs. rewrite keys_normal_form, schema_entry_keys.
    by rewrite decide_True.
Qed.

Lemma sort_keys_alphabetically_normalizes_witness :
  ∃ normal,
    Sync.sort_keys_alphabetically
      [("hello_world", "Hej"); (schema_key, "x"); ("bye", "Hej"); ("Zulu", "z")]
    = Some normal
    ∧ Sync.sort_keys_alphabetically normal = Some normal
    ∧ keys normal ≡ₚ ["hello_world"; schema_key; "bye"; "Zulu"]
    ∧ (∀ key, get normal key
              = get [("hello_world", "Hej"); (schema_key, "x"); ("bye", "Hej"); ("Zulu", "z")] key)
    ∧ StronglySorted String.le (filter (λ k, k ≠ schema_key) (keys normal))
    ∧ (schema_key ∈ ["hello_world"; schema_key; "bye"; "Zulu"] → head (keys normal) = Some schema_key).
Proof.
  apply (sort_keys_alphabetically_normalizes
           [("hello_world", "Hej"); (schema_key, "x"); ("bye", "Hej"); ("Zulu", "z")]).
  unfold dict_wf. apply (bool_decide_unpack _). vm_compute. exact I.
Defined.

Example sort_keys_alphabetically_example :
  Sync.sort_keys_alphabetically
    [("hello_world", "Hej"); (schema_key, "x"); ("bye", "Hej"); ("Zulu", "z")]
  = Some [(schema_key, "x"); ("Zulu", "z"); ("bye", "Hej"); ("hello_world", "Hej")].
Proof. vm_compute. reflexivity. Qed.

(** *** Duplicate values *)

Section duplicates.
Implicit Types (table : dict string) (value key : string).

Lemma contains_bracket_TODO s :
  contains "[TODO" s = true → contains "TODO" s = true.
Proof.
  induction s as [|c r IH]; [done|].
  cbn [contains]. intros [Hp | Hr]%orb_true_iff.
  - apply orb_true_iff. right.
    change (String.prefix "[TODO" (String c r))
      with (if ascii_dec "[" c then String.prefix "TODO" r else false) in Hp.
    destruct (ascii_dec "[" c); [|done].
    destruct r as [|c' r']; [done|]. cbn [contains]. by rewrite Hp.
  - apply orb_true_iff. right. auto.
Qed.

Lemma length_lstrip p s : (String.length (lstrip p s) ≤ String.length s)%nat.
Proof. induction s as [|c r IH]; simpl; [done|]. destruct (p c); simpl; lia. Qed.

Lemma length_rstrip p s : (String.length (rstrip p s) ≤ String.length s)%nat.
Proof.
  induction s as [|c r IH]; simpl; [done|].
  destruct (p c && is_empty (rstrip p r)); simpl; lia.
Qed.

Lemma length_strip p s : (String.length (strip p s) ≤ String.length s)%nat.
Proof.
  unfold strip. etrans; [apply length_rstrip | apply length_lstrip].
Qed.

(** The three tests of the loop amount to two conditions on the
    value. *)
Lemma skipped_value_false value :
  Sync.skipped_value value = false ↔
  (1 < String.length (strip is_space value))%nat ∧ contains "TODO" value = false.
Proof.
  unfold Sync.skipped_value.
  rewrite !orb_false_iff, Nat.leb_gt. split.
  - naive_solver.
  - intros [Hlen Htodo]. split_and!; try done.
    + destruct value; [|done]. cbn in Hlen. lia.
    + destruct (strip is_space value); [|done]. cbn in Hlen. lia.
    + destruct (contains "[TODO" value) eqn:E; [|done].
      apply contains_bracket_TODO in E. congruence.
Qed.

Lemma get_append_item (d : dict (list string)) value key v :
  get (append_item d value key) v =
  if decide (value = v) then extend_group (get d value) [key] else get d v.
Proof.
  unfold append_item. destruct (decide (value = v)) as [->|Hne].
  - destruct (get d v); by rewrite get_set_eq.
  - destruct (get d value); by rewrite get_set_ne.
Qed.

Lemma append_item_wf (d : dict (list string)) value key :
  dict_wf d → dict_wf (append_item d value key).
Proof. unfold append_item. destruct (get d value); apply dict_wf_set. Qed.

Lemma grouped_keys_cons kv table value :
  grouped_keys (kv :: table) value =
  if decide (kv.1 ≠ schema_key ∧ Sync.skipped_value kv.2 = false ∧ kv.2 = value)
  then kv.1 :: grouped_keys table value else grouped_keys table value.
Proof.
  unfold grouped_keys, keys_of_value. rewrite filter_cons.
  destruct (Sync.skipped_value value) eqn:Hs.
  - rewrite decide_False; [done|]. intros (_ & Hk & <-). congruence.
  - destruct (decide (kv.1 ≠ schema_key ∧ kv.2 = value)) as [[H1 H2]|Hn].
    + rewrite decide_True; [done|]. by rewrite H2.
    + rewrite decide_False; [done|]. naive_solver.
Qed.

Lemma extend_group_assoc g ks1 ks2 :
  extend_group (extend_group g ks1) ks2 = extend_group g (ks1 ++ ks2).
Proof.
  destruct g as [l|]; simpl.
  - by rewrite <- app_assoc.
  - destruct ks1; simpl; [by destruct ks2 | done].
Qed.

(** The grouping loop, from any state [acc] of [value_to_keys]. *)
Lemma group_loop table (acc : dict (list string)) value :
  get (foldl (λ value_to_keys kv,
                let '(key, value) := kv in
                if decide (key = schema_key) then value_to_keys
                else if Sync.skipped_value value then value_to_keys
                     else append_item value_to_keys value key)
             acc table) value
  = extend_group (get acc value) (grouped_keys table value).
Proof.
  revert acc. induction table as [|[k v] table IH]; intros acc.
  { cbn. unfold grouped_keys, keys_of_value.
    destruct (get acc value); destruct (Sync.skipped_value value); cbn;
      by rewrite ?app_nil_r. }
  cbn [foldl]. rewrite IH, grouped_keys_cons. cbn [fst snd].
  destruct (decide (k = schema_key)) as [->|Hk].
  { rewrite decide_False; [done | naive_solver]. }
  destruct (Sync.skipped_value v) eqn:Hs.
  { rewrite decide_False; [done | naive_solver]. }
  rewrite get_append_item. destruct (decide (v = value)) as [->|Hv].
  - rewrite decide_True by done. apply extend_group_assoc.
  - rewrite decide_False; [done | naive_solver].
Qed.

Lemma group_loop_wf table (acc : dict (list string)) :
  dict_wf acc →
  dict_wf (foldl (λ value_to_keys kv,
                let '(key, value) := kv in
                if decide (key = schema_key) then value_to_keys
                else if Sync.skipped_value value then value_to_keys
                     else append_item value_to_keys value key)
             acc table).
Proof.
  revert acc. induction table as [|[k v] table IH]; intros acc Hwf; [done|].
  cbn [foldl]. apply IH.
  destruct (decide (k = schema_key)); [done|].
  destruct (Sync.skipped_value v); [done|]. by apply append_item_wf.
Qed.

Lemma get_group_values table value :
  get (Sync.group_values table) value
  = extend_group None (grouped_keys table value).
Proof. unfold Sync.group_values. by rewrite group_loop. Qed.

Lemma group_values_wf table : dict_wf (Sync.group_values table).
Proof. apply group_loop_wf. apply NoDup_nil_2. Qed.

Lemma filter_wf {V} (P : string * V → Prop) `{∀ x, Decision (P x)} (d : dict V) :
  dict_wf d → dict_wf (filter P d).
Proof.
  unfold dict_wf, keys. intros Hwf.
  apply (sublist_NoDup _ (d.*1)); [done | apply fmap_sublist, sublist_filter].
Qed.

Lemma get_filter_wf {V} (P : string * V → Prop) `{∀ x, Decision (P x)}
    (d : dict V) k :
  dict_wf d →
  get (filter P d) k =
  match get d k with
  | Some v => if decide (P (k, v)) then Some v else None
  | None => None
  end.
Proof.
  unfold dict_wf, keys. induction d as [|[k0 v0] d IH]; [done|].
  csimpl. intros [Hk0 Hnd]%NoDup_cons. rewrite filter_cons.
  destruct (decide (k0 = k)) as [->|Hne].
  - destruct (decide (P (k, v0))); csimpl.
    + by rewrite decide_True.
    + rewrite IH by done.
      assert (get d k = None) as -> by by apply get_None. done.
  - destruct (decide (P (k0, v0))); csimpl.
    + rewrite decide_False by done. auto.
    + auto.
Qed.

Lemma get_find_duplicate_values table value :
  get (Sync.find_duplicate_values table) value =
  if decide (1 < List.length (grouped_keys table value))%nat
  then Some (grouped_keys table value) else None.
Proof.
  unfold Sync.find_duplicate_values.
  rewrite get_filter_wf by apply group_values_wf.
  rewrite get_group_values. cbn [snd].
  destruct (grouped_keys table value) as [|k ks] eqn:E; cbn; [|done].
  rewrite decide_False; [done | cbn; lia].
Qed.

Lemma keys_of_value_NoDup table value :
  dict_wf table → NoDup (keys_of_value table value).
Proof.
  unfold dict_wf, keys, keys_of_value. intros Hwf.
  apply (sublist_NoDup _ (table.*1)); [done | apply fmap_sublist, sublist_filter].
Qed.
End duplicates.

(** C2 (as the code has it): the groups have distinct values, so a value
    is reported at most once.  It is reported, with exactly the keys
    that carry it, when at least two keys do, it is longer than one
    character once surrounding white space is stripped, and it does not
    contain "TODO".  An empty or blank value, a value of at most one
    character (stripped or not), a value containing "TODO" and a value
    carried by at most one key are not reported. *)
Theorem find_duplicate_values_groups (table : dict string) (value : string) :
  let groups := Sync.find_duplicate_values table in
  let ks := keys_of_value table value in
  dict_wf groups
  ∧ ((2 ≤ List.length ks)%nat → (1 < String.length (strip is_space value))%nat →
     contains "TODO" value = false → get groups value = Some ks)
  ∧ ((String.length value ≤ 1)%nat ∨ strip is_space value = ""
     ∨ (String.length (strip is_space value) ≤ 1)%nat
     ∨ contains "TODO" value = true ∨ (List.length ks ≤ 1)%nat →
     get groups value = None)
  ∧ (dict_wf table → NoDup ks).
Proof.
  cbn zeta. split_and!.
  - unfold Sync.find_duplicate_values. apply filter_wf, group_values_wf.
  - intros Hks Hlen Htodo. rewrite get_find_duplicate_values.
    unfold grouped_keys.
    rewrite (proj2 (skipped_value_false value)) by done.
    by rewrite decide_True by lia.
  - intros Hcase. rewrite get_find_duplicate_values.
    apply decide_False. unfold grouped_keys.
    destruct (Sync.skipped_value value) eqn:Hs; [cbn; lia|].
    apply skipped_value_false in Hs as [Hlen Htodo].
    pose proof (length_strip is_space value).
    destruct Hcase as [?|[Hb|[?|[?|?]]]]; try lia; try congruence.
    rewrite Hb in Hlen. cbn in Hlen. lia.
  - apply keys_of_value_NoDup.
Qed.

Lemma find_duplicate_values_groups_witness :
  get (Sync.find_duplicate_values
         [(schema_key, "x"); ("hello_world", "Hej"); ("bye", "Hej")]) "Hej"
  = Some (keys_of_value
            [(schema_key, "x"); ("hello_world", "Hej"); ("bye", "Hej")] "Hej").
Proof.
  apply (find_duplicate_values_groups
           [(schema_key, "x"); ("hello_world", "Hej"); ("bye", "Hej")] "Hej").
  - vm_compute. lia.
  - vm_compute. lia.
  - reflexivity.
Defined.

(** C2 as stated fails: the value " x" is two characters long, is not
    blank, does not contain "TODO" and is shared by the keys "a" and
    "b", and it is not reported, because the length test is made on the
    stripped value. *)
Lemma find_duplicate_values_padded_value :
  dict_wf [("a", " x"); ("b", " x")]
  ∧ keys_of_value [("a", " x"); ("b", " x")] " x" = ["a"; "b"]
  ∧ String.length " x" = 2
  ∧ strip is_space " x" = "x"
  ∧ contains "TODO" " x" = false
  ∧ Sync.find_duplicate_values [("a", " x"); ("b", " x")] = [].
Proof.
  split_and!; try (vm_compute; reflexivity).
  unfold dict_wf. apply (bool_decide_unpack _). vm_compute. exact I.
Qed.

(** *** Writing a table *)

Section save_json.
Variable with_suffix : string → string → string.
Variable json_dump : dict string → string.

Implicit Types (fs : FS.t) (file_path old : string) (data : dict string).

Lemma exists_true fs p content : fs !! p = Some content → FS.exists_ fs p = true.
Proof. intros H. unfold FS.exists_. apply bool_decide_eq_true. by exists content. Qed.

Lemma exists_false fs p : fs !! p = None → FS.exists_ fs p = false.
Proof.
  intros H. unfold FS.exists_. apply bool_decide_eq_false.
  rewrite H. by intros [? ?].
Qed.

Lemma rename_lookup fs src dst content q :
  fs !! src = Some content → src ≠ dst →
  FS.rename fs src dst !! q =
  if decide (q = dst) then Some content
  else if decide (q = src) then None else fs !! q.
Proof.
  intros Hsrc Hne. unfold FS.rename. rewrite Hsrc.
  destruct (decide (q = dst)) as [->|Hd].
  - by rewrite lookup_insert_eq.
  - rewrite lookup_insert_ne by done.
    destruct (decide (q = src)) as [->|Hs].
    + by rewrite lookup_delete_eq.
    + by rewrite lookup_delete_ne.
Qed.

(** With no stale backup around, a rename that fails leaves the file
    system as it was. *)
Lemma save_json_rename_fails fs file_path data old :
  fs !! file_path = Some old →
  fs !! Sync.backup_of with_suffix file_path = None →
  Sync.save_json with_suffix json_dump fs file_path data false FS.RenameFails
  = (fs, false).
Proof.
  intros Hold Hnone. unfold Sync.save_json, Sync.save_try.
  by rewrite (exists_true _ _ _ Hold), (exists_false _ _ Hnone).
Qed.

(** When removing the backup fails after a complete write, the except
    block moves the backup over the new file: the old content is back. *)
Lemma save_json_unlink_fails fs file_path data old :
  fs !! file_path = Some old →
  Sync.backup_of with_suffix file_path ≠ file_path →
  let result :=
    Sync.save_json with_suffix json_dump fs file_path data false FS.UnlinkFails in
  result.2 = false ∧ result.1 !! file_path = Some old.
Proof.
  intros Hold Hne. cbn zeta. unfold Sync.save_json, Sync.save_try.
  set (backup := Sync.backup_of with_suffix file_path) in *.
  rewrite (exists_true _ _ _ Hold).
  assert (<[file_path:=json_dump data +:+ LF]> (FS.rename fs file_path backup)
            !! backup = Some old) as Hb.
  { rewrite lookup_insert_ne by done.
    by rewrite (rename_lookup _ _ _ old), decide_True. }
  rewrite (exists_true _ _ _ Hb). cbn [fst snd]. split; [done|].
  rewrite (exists_true _ _ _ Hb).
  by rewrite (rename_lookup _ _ _ old), decide_True.
Qed.

(** C5: saving over an existing file.  The old content is first moved
    to the backup name; when opening or writing the file then fails,
    whatever part was written, the backup is moved back, so the file
    holds the old content again and [save_json] answers [False]; when
    the write succeeds the file holds the new text, the backup is gone
    and the answer is [True].  No other file changes, and a dry run
    changes nothing. *)
Theorem save_json_keeps_or_replaces fs file_path data old :
  fs !! file_path = Some old →
  Sync.backup_of with_suffix file_path ≠ file_path →
  let backup := Sync.backup_of with_suffix file_path in
  let save := Sync.save_json with_suffix json_dump fs file_path data in
  let untouched (fs' : FS.t) :=
    ∀ q, q ≠ file_path → q ≠ backup → fs' !! q = fs !! q in
  (FS.rename fs file_path backup !! backup = Some old
   ∧ FS.rename fs file_path backup !! file_path = None)
  ∧ (∀ partial,
       Sync.save_try with_suffix json_dump fs file_path data (FS.DumpFails partial)
       = FS.Raised (<[file_path := partial]> (FS.rename fs file_path backup)))
  ∧ (∀ f, f = FS.OpenFails ∨ (∃ partial, f = FS.DumpFails partial) →
       (save false f).2 = false
       ∧ (save false f).1 !! file_path = Some old
       ∧ (save false f).1 !! backup = None
       ∧ untouched (save false f).1)
  ∧ ((save false FS.NoFault).2 = true
     ∧ (save false FS.NoFault).1 !! file_path = Some (json_dump data +:+ LF)
     ∧ (save false FS.NoFault).1 !! backup = None
     ∧ untouched (save false FS.NoFault).1)
  ∧ (∀ f, save true f = (fs, true)).
Proof.
  intros Hold Hne. cbn zeta.
  set (backup := Sync.backup_of with_suffix file_path) in *.
  assert (∀ q, FS.rename fs file_path backup !! q =
               if decide (q = backup) then Some old
               else if decide (q = file_path) then None else fs !! q) as Hren.
  { intros q. by apply rename_lookup. }
  assert (FS.rename fs file_path backup !! backup = Some old) as Hb.
  { by rewrite Hren, decide_True. }
  assert (FS.rename fs file_path backup !! file_path = None) as Hf.
  { by rewrite Hren, decide_False, decide_True. }
  refine (conj (conj Hb Hf) (conj _ (conj _ (conj _ _)))); [| | |done].
  - intros partial. unfold Sync.save_try.
    by rewrite (exists_true _ _ _ Hold).
  - intros f Hfail. unfold Sync.save_json, Sync.save_try. fold backup.
    rewrite (exists_true _ _ _ Hold).
    assert (∀ mid : FS.t, mid !! backup = Some old →
              (∀ q, q ≠ file_path → q ≠ backup → mid !! q = fs !! q) →
              let fs' := FS.rename mid backup file_path in
              fs' !! file_path = Some old ∧ fs' !! backup = None
              ∧ ∀ q, q ≠ file_path → q ≠ backup → fs' !! q = fs !! q) as Hrestore.
    { intros mid Hmid Hframe. cbn zeta. split_and!.
      - by rewrite (rename_lookup _ _ _ old), decide_True.
      - by rewrite (rename_lookup _ _ _ old), decide_False, decide_True.
      - intros q Hq1 Hq2.
        rewrite (rename_lookup _ _ _ old), !decide_False by done. auto. }
    destruct Hfail as [-> | [partial ->]].
    + rewrite (exists_true _ _ _ Hb). cbn [fst snd]. split; [done|].
      apply Hrestore; [done|].
      intros q Hq1 Hq2. by rewrite Hren, !decide_False.
    + assert (<[file_path:=partial]> (FS.rename fs file_path backup) !! backup
              = Some old) as Hb'.
      { by rewrite lookup_insert_ne. }
      rewrite (exists_true _ _ _ Hb'). cbn [fst snd]. split; [done|].
      apply Hrestore; [done|].
      intros q Hq1 Hq2. rewrite lookup_insert_ne by done.
      by rewrite Hren, !decide_False.
  - unfold Sync.save_json, Sync.save_try. fold backup.
    rewrite (exists_true _ _ _ Hold).
    assert (<[file_path:=json_dump data +:+ LF]> (FS.rename fs file_path backup)
              !! backup = Some old) as Hb'.
    { by rewrite lookup_insert_ne. }
    rewrite (exists_true _ _ _ Hb'). cbn [fst snd]. unfold FS.unlink.
    split_and!; [done|..].
    + rewrite lookup_delete_ne by done. by rewrite lookup_insert_eq.
    + by rewrite lookup_delete_eq.
    + intros q Hq1 Hq2. rewrite lookup_delete_ne, lookup_insert_ne by done.
      by rewrite Hren, !decide_False.
Qed.
End save_json.

Lemma save_json_keeps_or_replaces_witness :
  let fs : FS.t := {[ "messages/sv.json" := "{}" ]} in
  let save :=
    Sync.save_json (λ _ suffix, "messages/sv" +:+ suffix) (λ _, "{...}")
      fs "messages/sv.json" [("bye", "Hej")] false in
  (save FS.OpenFails).1 !! "messages/sv.json" = Some "{}"
  ∧ (save (FS.DumpFails "{")).1 !! "messages/sv.json" = Some "{}"
  ∧ (save FS.NoFault).1 !! "messages/sv.json" = Some ("{...}" +:+ LF).
Proof.
  cbn zeta.
  assert ((λ _ suffix : string, "messages/sv" +:+ suffix) "messages/sv.json" ".json.backup"
          ≠ "messages/sv.json") as Hne by (vm_compute; discriminate).
  pose proof (save_json_keeps_or_replaces
                (λ _ suffix, "messages/sv" +:+ suffix) (λ _, "{...}")
                {[ "messages/sv.json" := "{}" ]} "messages/sv.json"
                [("bye", "Hej")] "{}" eq_refl Hne) as (_ & _ & Hfail & Hok & _).
  split_and!.
  - exact (proj1 (proj2 (Hfail FS.OpenFails (or_introl eq_refl)))).
  - exact (proj1 (proj2 (Hfail (FS.DumpFails "{")
                           (or_intror (ex_intro _ "{" eq_refl))))).
  - exact (proj1 (proj2 Hok)).
Defined.

(** *** Exit status *)

Section exit_status.
Implicit Types (sv_data en_data : dict string).


Lemma set_truth_false (s : gset string) : Sync.set_truth s = false ↔ s = ∅.
Proof.
  unfold Sync.set_truth. rewrite bool_decide_eq_false. split.
  - intros H. by apply dec_stable.
  - by intros -> H.
Qed.
End exit_status.




(** Duplicate groups alone leave the exit status at 0. *)
Example check_exit_status_duplicates_only :
  Sync.find_duplicate_values [("a", "Hej"); ("b", "Hej")] = [("Hej", ["a"; "b"])]
  ∧ Sync.check_exit_status [("a", "Hej"); ("b", "Hej")] [("a", "Hello"); ("b", "Bye")] = 0%Z.
Proof. split; by vm_compute. Qed.

(** *** The usage scanner *)

Section scanner.
Implicit Types (lines : list string) (found : dict (list nat)).

Lemma scan_lines_nil start found : scan_lines start [] found = found.
Proof. done. Qed.

Lemma scan_lines_cons start line lines found :
  scan_lines start (line :: lines) found =
  scan_lines (S start) lines
    (foldl (λ found key, append_item found key start) found (Extract.findall line)).
Proof. done. Qed.

Lemma scan_lines_app start lines1 lines2 found :
  scan_lines start (lines1 ++ lines2) found =
  scan_lines (start + List.length lines1) lines2 (scan_lines start lines1 found).
Proof.
  revert start found. induction lines1 as [|l lines1 IH]; intros start found.
  - cbn [app List.length]. by rewrite Nat.add_0_r.
  - cbn [app List.length]. rewrite !scan_lines_cons, IH.
    by rewrite Nat.add_succ_comm.
Qed.

Lemma scan_lines_silent start lines found :
  Forall (λ line, Extract.findall line = []) lines →
  scan_lines start lines found = found.
Proof.
  intros Hall. revert start found.
  induction Hall as [|l lines Hl _ IH]; intros start found; [done|].
  by rewrite scan_lines_cons, Hl, IH.
Qed.

Lemma extract_translation_keys_scan content :
  Extract.extract_translation_keys (Some content)
  = scan_lines 1 (split_lines content) [].
Proof. done. Qed.
End scanner.

(** C9: in a text whose fifth line has the one reference
    [m.hello_world()] and whose ninth line has the one reference [m.bye],
    no other line having any, the scanner finds "hello_world" at line 5
    and "bye" at line 9 and nothing else: the index of the file maps
    "hello_world" to [(file, 5)] and "bye" to [(file, 9)]. *)
Theorem usage_scan_two_references
    (file content line5 line9 : string) (before between after : list string) :
  split_lines content = before ++ line5 :: between ++ line9 :: after →
  List.length before = 4 → List.length between = 3 →
  Extract.findall line5 = ["hello_world"] →
  Extract.findall line9 = ["bye"] →
  Forall (λ line, Extract.findall line = []) (before ++ between ++ after) →
  let index := Extract.scan_all_svelte_files [(file, Some content)] in
  Extract.findall "m.hello_world()" = ["hello_world"]
  ∧ Extract.findall "m.bye" = ["bye"]
  ∧ Extract.extract_translation_keys (Some content)
    = [("hello_world", [5]); ("bye", [9])]
  ∧ index.1 = {[ "hello_world"; "bye" ]}
  ∧ index.2 = [("hello_world", [(file, [5])]); ("bye", [(file, [9])])]
  ∧ locations index.2 "hello_world" = [(file, 5)]
  ∧ locations index.2 "bye" = [(file, 9)].
Proof.
  intros Hlines Hb Hm H5 H9 Hsilent. cbn zeta.
  apply Forall_app in Hsilent as [Hs1 [Hs2 Hs3]%Forall_app].
  assert (Extract.extract_translation_keys (Some content)
          = [("hello_world", [5]); ("bye", [9])]) as Hkeys.
  { rewrite extract_translation_keys_scan, Hlines.
    rewrite scan_lines_app, (scan_lines_silent _ before) by done.
    rewrite scan_lines_cons, H5, Hb.
    rewrite scan_lines_app, (scan_lines_silent _ between) by done.
    rewrite scan_lines_cons, H9, Hm.
    by rewrite (scan_lines_silent _ after) by done. }
  unfold Extract.scan_all_svelte_files. cbn [foldl]. rewrite Hkeys.
  split_and!; by vm_compute.
Qed.

Lemma usage_scan_two_references_witness :
  Extract.extract_translation_keys
    (Some ("<script>" +:+ LF +:+ "  import * as m from '$lib/paraglide/messages';" +:+ LF
           +:+ "</script>" +:+ LF +:+ LF
           +:+ "m.hello_world()" +:+ LF +:+ "<p>" +:+ LF +:+ "  text" +:+ LF +:+ "</p>" +:+ LF
           +:+ "m.bye" +:+ LF))
  = [("hello_world", [5]); ("bye", [9])].
Proof.
  apply (usage_scan_two_references "src/routes/+page.svelte" _
           "m.hello_world()" "m.bye"
           ["<script>"; "  import * as m from '$lib/paraglide/messages';"; "</script>"; ""]
           ["<p>"; "  text"; "</p>"] [""]).
  - vm_compute. reflexivity.
  - reflexivity.
  - reflexivity.
  - vm_compute. reflexivity.
  - vm_compute. reflexivity.
  - apply (bool_decide_unpack _). vm_compute. exact I.
Defined.

(** ** Further properties of the code *)

(** *** Strings *)

Section string_facts.
Implicit Types (p q : ascii → bool) (s r : string) (c : ascii).

Lemma underscore_char c : is_underscore c = true → c = "_"%char.
Proof. each_char c. Qed.

Lemma lower_char_not_upper c : is_upper (lower_char c) = false.
Proof. each_char c. Qed.

Lemma lower_char_underscore c : is_underscore (lower_char c) = is_underscore c.
Proof. each_char c. Qed.

Lemma not_upper_not_AZ c : is_upper c = false → is_upper_AZ c = false.
Proof. each_char c. Qed.

Lemma lower_char_fixed c : is_upper c = false → lower_char c = c.
Proof. unfold lower_char. by intros ->. Qed.

Lemma lower_char_ident c :
  is_ident_char c = true → is_snake_body (lower_char c) = true.
Proof. each_char c. Qed.

Lemma lower_char_letter c :
  is_lower_az c || is_upper_AZ c = true → is_lower_az (lower_char c) = true.
Proof. each_char c. Qed.

Lemma underscore_ident c : is_underscore c = true → is_ident_char c = true.
Proof. each_char c. Qed.

Lemma snake_body_not_newline c : is_snake_body c = true → is_newline c = false.
Proof. each_char c. Qed.

Lemma newline_char c : is_newline c = true → c = ascii_of_N 10.
Proof. each_char c. Qed.

Lemma existsb_lstrip p q s :
  PyStr.existsb p (lstrip q s) = true → PyStr.existsb p s = true.
Proof.
  induction s as [|c r IH]; [done|]. cbn [lstrip].
  destruct (q c); [|done]. intros H%IH. cbn. by rewrite H, orb_true_r.
Qed.

Lemma existsb_rstrip p q s :
  PyStr.existsb p (rstrip q s) = true → PyStr.existsb p s = true.
Proof.
  induction s as [|c r IH]; [done|]. cbn [rstrip].
  destruct (q c && is_empty (rstrip q r)); [done|]. cbn.
  intros [->|H%IH]%orb_true_iff; [done|]. by rewrite H, orb_true_r.
Qed.

Lemma existsb_strip p q s :
  PyStr.existsb p (strip q s) = true → PyStr.existsb p s = true.
Proof. unfold strip. by intros H%existsb_rstrip%existsb_lstrip. Qed.

Lemma forallb_lstrip p q s :
  PyStr.forallb p s = true → PyStr.forallb p (lstrip q s) = true.
Proof.
  induction s as [|c r IH]; [done|]. cbn [lstrip].
  destruct (q c); [|done]. cbn. intros [_ H]%andb_true_iff. auto.
Qed.

Lemma forallb_rstrip p q s :
  PyStr.forallb p s = true → PyStr.forallb p (rstrip q s) = true.
Proof.
  induction s as [|c r IH]; [done|]. cbn [rstrip PyStr.forallb].
  intros [Hc H]%andb_true_iff.
  destruct (q c && is_empty (rstrip q r)); [done|]. cbn. by rewrite Hc, IH.
Qed.

Lemma starts_with_lstrip p s : starts_with p (lstrip p s) = false.
Proof.
  induction s as [|c r IH]; [done|]. cbn [lstrip].
  destruct (p c) eqn:E; [done|]. cbn. done.
Qed.

Lemma rstrip_keeps_head p c r :
  p c = false → rstrip p (String c r) = String c (rstrip p r).
Proof. intros H. cbn [rstrip]. by rewrite H. Qed.

Lemma lstrip_fixed p s : starts_with p s = false → lstrip p s = s.
Proof. destruct s as [|c r]; [done|]. cbn. by intros ->. Qed.

Lemma rstrip_idem p s : rstrip p (rstrip p s) = rstrip p s.
Proof.
  induction s as [|c r IH]; [done|]. cbn [rstrip].
  destruct (p c && is_empty (rstrip p r)) eqn:E; [done|].
  cbn [rstrip]. by rewrite IH, E.
Qed.

Lemma starts_with_rstrip p s :
  starts_with p s = false → starts_with p (rstrip p s) = false.
Proof.
  destruct s as [|c r]; [done|]. cbn [starts_with]. intros H.
  by rewrite rstrip_keeps_head.
Qed.

Lemma strip_idem p s : strip p (strip p s) = strip p s.
Proof.
  unfold strip.
  rewrite (lstrip_fixed p (rstrip p (lstrip p s))).
  - apply rstrip_idem.
  - apply starts_with_rstrip, starts_with_lstrip.
Qed.

(** What "__" in [String c r] amounts to. *)
Lemma contains_dunder_cons c r :
  contains "__" (String c r) =
  (is_underscore c && starts_with is_underscore r) || contains "__" r.
Proof.
  cbn [contains]. f_equal.
  change (String.prefix "__" (String c r))
    with (if ascii_dec "_" c then String.prefix "_" r else false).
  destruct (ascii_dec "_" c) as [<-|Hne].
  - destruct r as [|d r']; [done|].
    change (String.prefix "_" (String d r'))
      with (if ascii_dec "_" d then String.prefix "" r' else false).
    destruct (ascii_dec "_" d) as [<-|Hd]; [by destruct r'|].
    cbn. destruct (is_underscore d) eqn:E; [|done].
    by apply underscore_char in E.
  - destruct (is_underscore c) eqn:E; [|done].
    by apply underscore_char in E.
Qed.

Lemma contains_dunder_lstrip p s :
  contains "__" s = false → contains "__" (lstrip p s) = false.
Proof.
  induction s as [|c r IH]; [done|]. cbn [lstrip].
  destruct (p c); [|done].
  rewrite contains_dunder_cons. intros [_ H]%orb_false_iff. auto.
Qed.

Lemma starts_with_rstrip_weak p q s :
  starts_with q (rstrip p s) = true → starts_with q s = true.
Proof.
  destruct s as [|c r]; [done|]. cbn [rstrip].
  by destruct (p c && is_empty (rstrip p r)).
Qed.

Lemma contains_dunder_rstrip p s :
  contains "__" s = false → contains "__" (rstrip p s) = false.
Proof.
  induction s as [|c r IH]; [done|]. cbn [rstrip].
  rewrite contains_dunder_cons. intros [H1 H2]%orb_false_iff.
  destruct (p c && is_empty (rstrip p r)); [done|].
  rewrite contains_dunder_cons, (IH H2), orb_false_r.
  destruct (is_underscore c); [|done]. cbn in *.
  destruct (starts_with is_underscore (rstrip p r)) eqn:E; [|done].
  apply starts_with_rstrip_weak in E. congruence.
Qed.
End string_facts.

(** *** The suggested key *)

Section suggestion.
Import Sync.
Implicit Types (s r key : string) (c : ascii).

Lemma existsb_upper_lower s : PyStr.existsb is_upper (lower s) = false.
Proof.
  induction s as [|c r IH]; [done|]. cbn. by rewrite lower_char_not_upper, IH.
Qed.

Lemma existsb_squeeze p b s :
  PyStr.existsb p (squeeze_underscores b s) = true → PyStr.existsb p s = true.
Proof.
  revert b. induction s as [|c r IH]; intros b; [done|]. cbn [squeeze_underscores].
  destruct (is_underscore c) eqn:E.
  - apply underscore_char in E as ->. destruct b; cbn.
    + intros H%IH. by rewrite H, orb_true_r.
    + intros [->|H%IH]%orb_true_iff; [done|]. by rewrite H, orb_true_r.
  - cbn. intros [->|H%IH]%orb_true_iff; [done|]. by rewrite H, orb_true_r.
Qed.

(** Inside a run the output does not start with an underscore, and it
    never has two in a row. *)
Lemma squeeze_shape b s :
  contains "__" (squeeze_underscores b s) = false
  ∧ (b = true → starts_with is_underscore (squeeze_underscores b s) = false).
Proof.
  revert b. induction s as [|c r IH]; intros b; [done|]. cbn [squeeze_underscores].
  destruct (is_underscore c) eqn:E.
  - destruct b.
    + apply IH.
    + split; [|done]. rewrite contains_dunder_cons.
      destruct (IH true) as [-> ->]; done.
  - split.
    + rewrite contains_dunder_cons, E. cbn. apply IH.
    + intros _. cbn. done.
Qed.

Lemma squeeze_fixed b s :
  contains "__" s = false →
  (b = true → starts_with is_underscore s = false) →
  squeeze_underscores b s = s.
Proof.
  revert b. induction s as [|c r IH]; intros b; [done|].
  rewrite contains_dunder_cons. intros [H1 H2]%orb_false_iff Hb.
  cbn [squeeze_underscores]. destruct (is_underscore c) eqn:E.
  - destruct b.
    + cbn in Hb. rewrite E in Hb. by specialize (Hb eq_refl).
    + apply underscore_char in E as ->. f_equal. apply IH; [done|].
      intros _. by cbn in H1.
  - f_equal. by apply IH.
Qed.

Lemma sub_underscore_fixed m skip s :
  (∀ c r, starts_with is_upper_AZ r = false → m c r = None) →
  PyStr.existsb is_upper_AZ s = false →
  sub_underscore m skip s = s.
Proof.
  intros Hm. revert skip. induction s as [|c r IH]; intros skip; [done|].
  cbn [PyStr.existsb]. intros [Hc Hr]%orb_false_iff.
  cbn [sub_underscore]. destruct skip as [|n].
  - rewrite Hm; [by rewrite IH|].
    destruct r as [|d r']; [done|]. cbn in *. by apply orb_false_iff in Hr as [-> _].
  - by rewrite IH.
Qed.

Lemma hump_at_needs_upper c r :
  starts_with is_upper_AZ r = false → hump_at c r = None.
Proof.
  destruct r as [|u r']; [done|]. cbn. intros ->. by rewrite andb_false_r.
Qed.

Lemma boundary_at_needs_upper c r :
  starts_with is_upper_AZ r = false → boundary_at c r = None.
Proof.
  destruct r as [|u r']; [done|]. cbn. intros ->. by rewrite andb_false_r.
Qed.

Lemma lower_fixed s : PyStr.existsb is_upper s = false → lower s = s.
Proof.
  induction s as [|c r IH]; [done|]. cbn.
  intros [Hc Hr]%orb_false_iff. by rewrite lower_char_fixed, IH.
Qed.

Lemma existsb_upper_AZ s :
  PyStr.existsb is_upper s = false → PyStr.existsb is_upper_AZ s = false.
Proof.
  induction s as [|c r IH]; [done|]. cbn.
  intros [Hc Hr]%orb_false_iff. by rewrite not_upper_not_AZ, IH.
Qed.
End suggestion.

(** X1: for every key of Latin-1 characters (code points below 256),
    the suggestion has no upper-case letter, no two underscores in a
    row, and no underscore at either end. *)
Theorem suggest_snake_case_shape (key : string) :
  PyStr.existsb is_upper (Sync.suggest_snake_case key) = false
  ∧ contains "__" (Sync.suggest_snake_case key) = false
  ∧ strip is_underscore (Sync.suggest_snake_case key) = Sync.suggest_snake_case key.
Proof.
  unfold Sync.suggest_snake_case. split_and!.
  - destruct (PyStr.existsb is_upper (strip _ _)) eqn:E; [|done].
    apply existsb_strip, existsb_squeeze in E.
    by rewrite existsb_upper_lower in E.
  - unfold strip. apply contains_dunder_rstrip, contains_dunder_lstrip, squeeze_shape.
  - apply strip_idem.
Qed.

(** X2: proposing a key for a proposed key changes nothing. *)
Theorem suggest_snake_case_idempotent (key : string) :
  Sync.suggest_snake_case (Sync.suggest_snake_case key) = Sync.suggest_snake_case key.
Proof.
  assert (PyStr.existsb is_upper (Sync.suggest_snake_case key) = false
          ∧ contains "__" (Sync.suggest_snake_case key) = false
          ∧ strip is_underscore (Sync.suggest_snake_case key)
            = Sync.suggest_snake_case key) as (Hup & Hdu & Hst).
  { unfold Sync.suggest_snake_case. split_and!.
    - destruct (PyStr.existsb is_upper (strip _ _)) eqn:E; [|done].
      apply existsb_strip, existsb_squeeze in E.
      by rewrite existsb_upper_lower in E.
    - unfold strip.
      apply contains_dunder_rstrip, contains_dunder_lstrip, squeeze_shape.
    - apply strip_idem. }
  set (t := Sync.suggest_snake_case key) in *.
  unfold Sync.suggest_snake_case at 1.
  rewrite (sub_underscore_fixed Sync.hump_at 0 t)
    by auto using hump_at_needs_upper, existsb_upper_AZ.
  rewrite (sub_underscore_fixed Sync.boundary_at 0 t)
    by auto using boundary_at_needs_upper, existsb_upper_AZ.
  rewrite lower_fixed by done.
  rewrite squeeze_fixed by done.
  done.
Qed.
Section suggestion_valid.
Import Sync.
Implicit Types (s r key : string) (c : ascii) (q : ascii → bool).

Lemma lstrip_sub_underscore m skip s q :
  starts_with q (lstrip is_underscore (sub_underscore m skip s))
  = starts_with q (lstrip is_underscore s).
Proof.
  revert skip. induction s as [|c r IH]; intros skip; [done|].
  cbn [sub_underscore].
  destruct skip as [|n]; [destruct (m c r) as [n|]|];
    cbn [lstrip]; destruct (is_underscore c) eqn:E; try done; auto.
  change (is_underscore "_") with true. cbn iota. auto.
Qed.

Lemma lstrip_lower s q :
  starts_with q (lstrip is_underscore (lower s))
  = starts_with (λ c, q (lower_char c)) (lstrip is_underscore s).
Proof.
  induction s as [|c r IH]; [done|]. cbn [lower lstrip].
  rewrite lower_char_underscore. by destruct (is_underscore c).
Qed.

Lemma lstrip_squeeze b s q :
  starts_with q (lstrip is_underscore (squeeze_underscores b s))
  = starts_with q (lstrip is_underscore s).
Proof.
  revert b. induction s as [|c r IH]; intros b; [done|].
  cbn [squeeze_underscores lstrip].
  destruct (is_underscore c) eqn:E.
  - destruct b; [auto|]. cbn [lstrip].
    change (is_underscore "_") with true. cbn iota. auto.
  - cbn [lstrip]. by rewrite E.
Qed.

Lemma starts_with_strip s q :
  starts_with q (strip is_underscore s)
  = starts_with q (lstrip is_underscore s).
Proof.
  unfold strip. pose proof (starts_with_lstrip is_underscore s) as H.
  destruct (lstrip is_underscore s) as [|c r]; [done|].
  cbn in H. by rewrite rstrip_keeps_head.
Qed.

Lemma forallb_sub_underscore m skip s :
  PyStr.forallb is_ident_char s = true →
  PyStr.forallb is_ident_char (sub_underscore m skip s) = true.
Proof.
  revert skip. induction s as [|c r IH]; intros skip; [done|].
  cbn [PyStr.forallb sub_underscore]. intros [Hc Hr]%andb_true_iff.
  destruct skip as [|n]; [destruct (m c r) as [n|]|];
    cbn [PyStr.forallb]; rewrite Hc, ?IH; done.
Qed.

Lemma forallb_lower s :
  PyStr.forallb is_ident_char s = true →
  PyStr.forallb is_snake_body (lower s) = true.
Proof.
  induction s as [|c r IH]; [done|]. cbn [PyStr.forallb lower].
  intros [Hc Hr]%andb_true_iff. by rewrite lower_char_ident, IH.
Qed.

Lemma forallb_squeeze p b s :
  PyStr.forallb p s = true →
  PyStr.forallb p (squeeze_underscores b s) = true.
Proof.
  revert b. induction s as [|c r IH]; intros b; [done|].
  cbn [PyStr.forallb squeeze_underscores]. intros [Hc Hr]%andb_true_iff.
  destruct (is_underscore c) eqn:E.
  - apply underscore_char in E as ->.
    destruct b; [auto|]. cbn [PyStr.forallb]. by rewrite Hc, IH.
  - cbn [PyStr.forallb]. by rewrite Hc, IH.
Qed.

Lemma snake_tail_forallb s :
  PyStr.forallb is_snake_body s = true → snake_tail s = true.
Proof.
  induction s as [|c r IH]; [done|]. cbn [PyStr.forallb snake_tail].
  intros [-> Hr]%andb_true_iff. by rewrite IH.
Qed.

Lemma snake_tail_exact s :
  snake_tail s = true ↔
  PyStr.forallb is_snake_body s = true
  ∨ ∃ r, s = r +:+ LF ∧ PyStr.forallb is_snake_body r = true.
Proof.
  split.
  - induction s as [|c r IH]; [by left|]. cbn [snake_tail].
    intros [[Hc Hr]%andb_true_iff | [Hc Hr]%andb_true_iff]%orb_true_iff.
    + destruct (IH Hr) as [Hall | (r0 & -> & Hall)].
      * left. cbn [PyStr.forallb]. by rewrite Hc.
      * right. exists (String c r0). cbn [PyStr.forallb].
        by rewrite Hc.
    + right. exists "". destruct r; [|done].
      by rewrite (newline_char c Hc).
  - intros [Hall | (r0 & -> & Hall)]; [by apply snake_tail_forallb|].
    induction r0 as [|c r0 IH]; [done|].
    cbn [PyStr.forallb] in Hall. apply andb_true_iff in Hall as [Hc Hr0].
    change (String c r0 +:+ LF) with (String c (r0 +:+ LF)).
    cbn [snake_tail]. by rewrite Hc, IH.
Qed.
End suggestion_valid.

(** X3: for a key made of ASCII letters, digits and underscores whose
    first character after any leading underscores is a letter, the
    suggestion satisfies the naming convention. *)
Theorem suggest_snake_case_valid (key : string) :
  PyStr.forallb is_ident_char key = true →
  starts_with (λ c, is_lower_az c || is_upper_AZ c) (lstrip is_underscore key) = true →
  Sync.validate_snake_case (Sync.suggest_snake_case key) = true.
Proof.
  intros Hall Hfirst.
  assert (starts_with is_lower_az (Sync.suggest_snake_case key) = true) as Hhead.
  { unfold Sync.suggest_snake_case.
    rewrite starts_with_strip, lstrip_squeeze, lstrip_lower, !lstrip_sub_underscore.
    destruct (lstrip is_underscore key) as [|c r]; [done|].
    cbn [starts_with] in *. by apply lower_char_letter. }
  assert (PyStr.forallb is_snake_body (Sync.suggest_snake_case key) = true) as Hbody.
  { unfold Sync.suggest_snake_case, strip.
    by apply forallb_rstrip, forallb_lstrip, forallb_squeeze, forallb_lower,
      forallb_sub_underscore, forallb_sub_underscore. }
  destruct (Sync.suggest_snake_case key) as [|c r]; [done|].
  cbn [starts_with PyStr.forallb Sync.validate_snake_case] in *.
  apply andb_true_iff in Hbody as [_ Hr].
  by rewrite Hhead, snake_tail_forallb.
Qed.

Lemma suggest_snake_case_valid_witness :
  Sync.validate_snake_case (Sync.suggest_snake_case "__HTTPServerName_v2") = true.
Proof.
  apply (suggest_snake_case_valid "__HTTPServerName_v2"); reflexivity.
Defined.

(** X4: the keys [validate_snake_case] accepts are exactly a lower-case
    letter followed by characters of [[a-z0-9_]], and such a key
    followed by one line feed. *)
Theorem validate_snake_case_exact (key : string) :
  Sync.validate_snake_case key = true ↔
  ∃ c r, is_lower_az c = true ∧ PyStr.forallb is_snake_body r = true
         ∧ (key = String c r ∨ key = String c r +:+ LF).
Proof.
  split.
  - destruct key as [|c s]; [done|]. cbn [Sync.validate_snake_case].
    intros [Hc [Hall | (r0 & -> & Hall)]%snake_tail_exact]%andb_true_iff.
    + exists c, s. auto.
    + exists c, r0. auto.
  - intros (c & r & Hc & Hall & [-> | ->]).
    + cbn [Sync.validate_snake_case]. rewrite Hc. apply snake_tail_exact. by left.
    + change (String c r +:+ LF) with (String c (r +:+ LF)).
      cbn [Sync.validate_snake_case]. rewrite Hc. apply snake_tail_exact.
      right. by exists r.
Qed.

(** *** Parameters of a translation *)

Section parameters.
Import Sync.
Implicit Types (p : ascii → bool) (s r name value : string) (c : ascii).

Lemma span_forallb p s : PyStr.forallb p (span p s) = true.
Proof.
  induction s as [|c r IH]; [done|]. cbn [span].
  destruct (p c) eqn:E; [|done]. cbn [PyStr.forallb]. by rewrite E, IH.
Qed.

Lemma span_after_span p s : span p s +:+ after_span p s = s.
Proof.
  induction s as [|c r IH]; [done|]. cbn [span after_span].
  destruct (p c); [|done].
  change (String c (span p r) +:+ after_span p r)
    with (String c (span p r +:+ after_span p r)).
  by rewrite IH.
Qed.

Lemma span_app p s c r :
  PyStr.forallb p s = true → p c = false →
  span p (s +:+ String c r) = s ∧ after_span p (s +:+ String c r) = String c r.
Proof.
  intros Hs Hc. induction s as [|d s IH].
  - change ("" +:+ String c r) with (String c r).
    cbn [span after_span]. by rewrite Hc.
  - cbn [PyStr.forallb] in Hs. apply andb_true_iff in Hs as [Hd Hs].
    change (String d s +:+ String c r) with (String d (s +:+ String c r)).
    cbn [span after_span]. rewrite Hd. destruct (IH Hs) as [-> ->]. done.
Qed.

Lemma length_span p s : String.length (span p s) = span_len p s.
Proof.
  induction s as [|c r IH]; [done|]. cbn [span span_len].
  destruct (p c); [|done]. cbn. by rewrite IH.
Qed.

Lemma prefix_nil s : String.prefix "" s = true.
Proof. by destruct s. Qed.

Lemma prefix_append s t : String.prefix s (s +:+ t) = true.
Proof.
  induction s as [|c s IH]; [apply prefix_nil|].
  change (String.prefix (String c s) (String c s +:+ t))
    with (if ascii_dec c c then String.prefix s (s +:+ t) else false).
  by destruct (ascii_dec c c).
Qed.

Lemma contains_prefix needle s :
  String.prefix needle s = true → contains needle s = true.
Proof. intros H. destruct s; cbn [contains]; by rewrite H. Qed.

Lemma contains_cons needle c s :
  contains needle s = true → contains needle (String c s) = true.
Proof. intros H. cbn [contains]. by rewrite H, orb_true_r. Qed.

Lemma contains_append needle pre post :
  contains needle (pre +:+ needle +:+ post) = true.
Proof.
  induction pre as [|c pre IH].
  - change ("" +:+ needle +:+ post) with (needle +:+ post).
    apply contains_prefix, prefix_append.
  - change (String c pre +:+ needle +:+ post)
      with (String c (pre +:+ needle +:+ post)).
    by apply contains_cons.
Qed.

Lemma append_assoc_string s1 s2 s3 : (s1 +:+ s2) +:+ s3 = s1 +:+ (s2 +:+ s3).
Proof.
  induction s1 as [|c s1 IH]; [done|].
  change ((String c s1 +:+ s2) +:+ s3) with (String c ((s1 +:+ s2) +:+ s3)).
  change (String c s1 +:+ (s2 +:+ s3)) with (String c (s1 +:+ (s2 +:+ s3))).
  by rewrite IH.
Qed.

Lemma param_at_Some c r name :
  param_at c r = Some name →
  c = "{"%char ∧ name ≠ "" ∧ PyStr.forallb is_word name = true
  ∧ ∃ rest, r = name +:+ String "}" rest.
Proof.
  unfold param_at. case_bool_decide as Hc; [|done].
  pose proof (span_forallb is_word r) as Hall.
  pose proof (span_after_span is_word r) as Hsplit.
  destruct (span is_word r) as [|n0 n1] eqn:Hspan; [done|].
  destruct (after_span is_word r) as [|d rest] eqn:Hafter; [done|].
  case_bool_decide as Hd; [|done]. intros [= <-].
  split_and!; [done..|]. exists rest. by rewrite <- Hsplit, Hd.
Qed.

Lemma param_at_braced name post :
  name ≠ "" → PyStr.forallb is_word name = true →
  param_at "{" (name +:+ String "}" post) = Some name.
Proof.
  intros Hne Hall. unfold param_at. rewrite bool_decide_eq_true_2 by done.
  destruct (span_app is_word name "}" post Hall) as [-> ->]; [done|].
  destruct name; [done|]. by rewrite bool_decide_eq_true_2.
Qed.

Lemma findall_params_sound skip value name :
  name ∈ findall_params skip value →
  name ≠ "" ∧ PyStr.forallb is_word name = true
  ∧ contains ("{" +:+ name +:+ "}") value = true.
Proof.
  revert skip. induction value as [|c r IH]; intros skip.
  { intros H. by apply elem_of_nil in H. }
  cbn [findall_params]. destruct skip as [|n].
  - destruct (param_at c r) as [nm|] eqn:E.
    + intros [->|Hin]%elem_of_cons.
      * apply param_at_Some in E as (-> & Hne & Hall & rest & ->).
        split_and!; [done..|].
        replace (String "{" (nm +:+ String "}" rest))
          with ("" +:+ ("{" +:+ nm +:+ "}") +:+ rest); [apply contains_append|].
        change ("" +:+ ("{" +:+ nm +:+ "}") +:+ rest)
          with (String "{" ((nm +:+ "}") +:+ rest)).
        by rewrite append_assoc_string.
      * destruct (IH _ Hin) as (? & ? & ?). split_and!; [done..|].
        by apply contains_cons.
    + intros Hin. destruct (IH _ Hin) as (? & ? & ?). split_and!; [done..|].
      by apply contains_cons.
  - intros Hin. destruct (IH _ Hin) as (? & ? & ?). split_and!; [done..|].
    by apply contains_cons.
Qed.

Lemma brace_free_cons n c r :
  brace_free (S n) (String c r)
  = negb (bool_decide (c = "{"%char)) && brace_free n r.
Proof. done. Qed.

Lemma brace_free_word s rest :
  PyStr.forallb is_word s = true →
  brace_free (S (String.length s)) (s +:+ String "}" rest) = true.
Proof.
  induction s as [|c s IH]; [done|]. cbn [PyStr.forallb]. intros [Hc Hs]%andb_true_iff.
  change (String c s +:+ String "}" rest) with (String c (s +:+ String "}" rest)).
  cbn [String.length]. rewrite brace_free_cons, IH by done.
  rewrite bool_decide_eq_false_2; [done|]. intros ->. done.
Qed.

Lemma findall_params_complete skip pre name post :
  name ≠ "" → PyStr.forallb is_word name = true →
  brace_free skip (pre +:+ String "{" (name +:+ String "}" post)) = true →
  name ∈ findall_params skip (pre +:+ String "{" (name +:+ String "}" post)).
Proof.
  intros Hne Hall. revert skip. induction pre as [|c pre IH]; intros skip Hfree.
  - change ("" +:+ String "{" (name +:+ String "}" post))
      with (String "{" (name +:+ String "}" post)) in *.
    destruct skip as [|n]; [|done]. cbn [findall_params].
    rewrite param_at_braced by done. apply list_elem_of_here.
  - change (String c pre +:+ String "{" (name +:+ String "}" post))
      with (String c (pre +:+ String "{" (name +:+ String "}" post))) in *.
    cbn [findall_params]. destruct skip as [|n].
    + destruct (param_at c _) as [nm|] eqn:E.
      * apply list_elem_of_further, IH.
        apply param_at_Some in E as (_ & _ & Hnm & rest & ->).
        by apply brace_free_word.
      * by apply IH.
    + apply IH. rewrite brace_free_cons in Hfree.
      by apply andb_true_iff in Hfree as [_ ?].
Qed.
End parameters.

(** X5: every parameter [extract_parameters] returns is a non-empty run
    of word characters that occurs between braces in the value; and a
    non-empty run of word characters between braces is returned wherever
    it stands in the value. *)
Theorem extract_parameters_exact (value name : string) :
  (name ∈ Sync.extract_parameters value →
     name ≠ "" ∧ PyStr.forallb is_word name = true
     ∧ contains ("{" +:+ name +:+ "}") value = true)
  ∧ (name ≠ "" → PyStr.forallb is_word name = true →
     ∀ pre post,
       name ∈ Sync.extract_parameters (pre +:+ "{" +:+ name +:+ "}" +:+ post)).
Proof.
  unfold Sync.extract_parameters. split.
  - rewrite elem_of_list_to_set. apply findall_params_sound.
  - intros Hne Hall pre post. rewrite elem_of_list_to_set.
    exact (findall_params_complete 0 pre name post Hne Hall eq_refl).
Qed.

Lemma extract_parameters_exact_witness :
  "count" ∈ Sync.extract_parameters ("You have " +:+ "{" +:+ "count" +:+ "}" +:+ " new {messages")
  ∧ Sync.extract_parameters "You have {count} new {messages" = {[ "count" ]}.
Proof.
  split; [|by vm_compute].
  apply (proj2 (extract_parameters_exact "" "count")); [done | reflexivity].
Defined.

(** *** Locating the two files *)

Section locate_facts.
Variable path : Type.
Variable Path : string → path.
Variable joinpath : path → string → path.
Variable path_exists : path → bool.
Variable cwd : path.
Variable workspace_root_env : option string.

Lemma first_complete_Some locations files :
  Sync.first_complete path joinpath path_exists locations = Some files →
  ∃ before loc after,
    locations = before ++ loc :: after
    ∧ files = (joinpath loc "sv.json", joinpath loc "en.json")
    ∧ holds_both joinpath path_exists loc = true
    ∧ Forall (λ l, holds_both joinpath path_exists l = false) before.
Proof.
  induction locations as [|loc rest IH]; [done|]. cbn [Sync.first_complete].
  change (path_exists _ && path_exists _) with (holds_both joinpath path_exists loc).
  destruct (holds_both joinpath path_exists loc) eqn:E.
  - intros [= <-]. exists [], loc, rest. by split_and!.
  - intros (before & l & after & -> & -> & Hl & Hb)%IH.
    exists (loc :: before), l, after. split_and!; [done..|]. by constructor.
Qed.

Lemma first_complete_None locations :
  Sync.first_complete path joinpath path_exists locations = None ↔
  Forall (λ l, holds_both joinpath path_exists l = false) locations.
Proof.
  induction locations as [|loc rest IH]; cbn [Sync.first_complete].
  - split; [constructor | done].
  - change (path_exists _ && path_exists _) with (holds_both joinpath path_exists loc).
    rewrite Forall_cons. destruct (holds_both joinpath path_exists loc) eqn:E.
    + split; [done | by intros [? _]].
    + rewrite IH. naive_solver.
Qed.

(** X6: [find_translation_files] answers with the first of the three
    candidate directories that holds both files, and then both files
    it names exist; when no candidate holds both, it answers with the
    default pair. *)
Theorem find_translation_files_first_complete :
  let workspace :=
    Sync.find_workspace_root path Path path_exists cwd workspace_root_env in
  let candidates :=
    [ joinpath workspace "frontend/apps/web/messages";
      joinpath workspace "apps/web/messages";
      joinpath workspace "messages" ] in
  let result :=
    Sync.find_translation_files path Path joinpath path_exists cwd
      workspace_root_env in
  (Exists (λ l, holds_both joinpath path_exists l = true) candidates →
     path_exists result.1 = true ∧ path_exists result.2 = true
     ∧ ∃ before loc after,
         candidates = before ++ loc :: after
         ∧ result = (joinpath loc "sv.json", joinpath loc "en.json")
         ∧ Forall (λ l, holds_both joinpath path_exists l = false) before)
  ∧ (Forall (λ l, holds_both joinpath path_exists l = false) candidates →
     result = (joinpath workspace "frontend/apps/web/messages/sv.json",
               joinpath workspace "frontend/apps/web/messages/en.json")).
Proof.
  cbn zeta. unfold Sync.find_translation_files.
  set (workspace := Sync.find_workspace_root _ _ _ _ _).
  set (candidates := [_; _; _]).
  destruct (Sync.first_complete path joinpath path_exists candidates)
    as [files|] eqn:E.
  - apply first_complete_Some in E as (before & loc & after & Hc & -> & Hl & Hb).
    split.
    + intros _. unfold holds_both in Hl. apply andb_true_iff in Hl as [H1 H2].
      split_and!; [done..|]. by exists before, loc, after.
    + intros Hall. rewrite Hc in Hall.
      apply Forall_app in Hall as [_ [Hloc _]%Forall_cons]. congruence.
  - apply first_complete_None in E. split; [|done].
    intros Hex. apply Exists_exists in Hex as (l & Hin & Hl).
    rewrite Forall_forall in E. specialize (E l Hin). congruence.
Qed.
End locate_facts.

Lemma find_translation_files_first_complete_witness :
  let path_exists := λ p : string,
    bool_decide (p ∈ ["/repo/apps/web/messages/sv.json";
                      "/repo/apps/web/messages/en.json";
                      "/repo/messages/sv.json"]) in
  let result :=
    Sync.find_translation_files string id (λ p s, p +:+ "/" +:+ s) path_exists
      "/cwd" (Some "/repo") in
  path_exists result.1 = true ∧ path_exists result.2 = true.
Proof.
  cbn zeta.
  destruct (find_translation_files_first_complete string id (λ p s, p +:+ "/" +:+ s)
              (λ p : string,
                 bool_decide (p ∈ ["/repo/apps/web/messages/sv.json";
                                   "/repo/apps/web/messages/en.json";
                                   "/repo/messages/sv.json"]))
              "/cwd" (Some "/repo")) as [Hfound _].
  destruct Hfound as (H1 & H2 & _); [|done].
  apply Exists_cons_tl, Exists_cons_hd. reflexivity.
Defined.

(** *** Comparing two tables, continued *)

(** X7: [find_missing_keys] reports nothing in either direction exactly
    when the two tables have the same keys apart from the schema key;
    swapping the tables swaps the two answers; a key is reported missing
    in the second table exactly when it is a key of the first, not of
    the second, and not the schema key. *)
Theorem find_missing_keys_exact (sv_data en_data : dict string) :
  (Sync.find_missing_keys sv_data en_data = (∅, ∅)
     ↔ Sync.key_set sv_data = Sync.key_set en_data)
  ∧ Sync.find_missing_keys en_data sv_data
    = ((Sync.find_missing_keys sv_data en_data).2,
       (Sync.find_missing_keys sv_data en_data).1)
  ∧ ∀ key, key ∈ (Sync.find_missing_keys sv_data en_data).1
           ↔ key ∈ keys sv_data ∧ (key ∉ keys en_data) ∧ key ≠ schema_key.
Proof.
  unfold Sync.find_missing_keys. cbn [fst snd]. split_and!.
  - split.
    + intros [= H1 H2]. apply set_eq. intros k.
      destruct (decide (k ∈ Sync.key_set sv_data)), (decide (k ∈ Sync.key_set en_data));
        try done; set_solver.
    + intros ->. f_equal; set_solver.
  - done.
  - intros key. rewrite elem_of_difference, !elem_of_key_set. naive_solver.
Qed.

(** X8: [find_naming_violations] lists a pair exactly when its key is a
    key of the table other than the schema key that fails the pattern
    and its second component is the suggestion for that key; the keys
    come in table order; the schema key is never listed although it
    fails the pattern itself. *)
Theorem find_naming_violations_exact (data : dict string) :
  (∀ key suggestion,
     (key, suggestion) ∈ Sync.find_naming_violations data ↔
     key ∈ keys data ∧ key ≠ schema_key
     ∧ Sync.validate_snake_case key = false
     ∧ suggestion = Sync.suggest_snake_case key)
  ∧ (Sync.find_naming_violations data).*1 `sublist_of` keys data
  ∧ Sync.validate_snake_case schema_key = false.
Proof.
  rewrite find_naming_violations_omap. split_and!; [| |done].
  - intros key suggestion. rewrite list_elem_of_omap. unfold violation_of, keys.
    rewrite list_elem_of_fmap. split.
    + intros (kv & Hin & Hv).
      destruct (decide (kv.1 = schema_key)); [done|].
      destruct (Sync.validate_snake_case kv.1) eqn:E; [done|].
      injection Hv as <- <-. split_and!; [|done..]. by exists kv.
    + intros ((kv & -> & Hin) & Hne & Hv & ->). exists kv. split; [done|].
      rewrite decide_False by done. by rewrite Hv.
  - unfold keys. induction data as [|kv data IH]; [done|]. csimpl.
    unfold violation_of at 1.
    destruct (decide (kv.1 = schema_key)); [by apply sublist_cons|].
    destruct (Sync.validate_snake_case kv.1); [by apply sublist_cons|].
    csimpl. by apply sublist_skip.
Qed.

(** *** Sorting, continued *)

Section canonical.
Implicit Types (d : dict string) (k : string).

Lemma dict_wf_Permutation {V} (d1 d2 : dict V) :
  d1 ≡ₚ d2 → dict_wf d1 → dict_wf d2.
Proof. unfold dict_wf, keys. by intros ->. Qed.

Lemma get_Permutation {V} (d1 d2 : dict V) k :
  dict_wf d1 → d1 ≡ₚ d2 → get d1 k = get d2 k.
Proof.
  intros Hwf Hp. pose proof (dict_wf_Permutation _ _ Hp Hwf) as Hwf2.
  destruct (get d1 k) as [v|] eqn:E.
  - symmetry. apply elem_get_wf; [done|]. rewrite <- Hp. by apply get_Some_elem.
  - symmetry. apply get_None. apply get_None in E. unfold keys in *.
    by rewrite <- Hp.
Qed.

Lemma other_keys_Permutation d1 d2 :
  d1 ≡ₚ d2 → other_keys d1 = other_keys d2.
Proof.
  intros Hp. unfold other_keys.
  apply (StronglySorted_unique String.le); [apply sorted_StronglySorted..|].
  rewrite !sorted_Permutation. unfold keys. by rewrite Hp.
Qed.

Lemma normal_form_Permutation d1 d2 :
  dict_wf d1 → d1 ≡ₚ d2 → normal_form d1 = normal_form d2.
Proof.
  intros Hwf Hp. unfold normal_form, schema_entry.
  rewrite (get_Permutation d1 d2) by done.
  rewrite (other_keys_Permutation d1 d2) by done.
  f_equal. apply entries_of_ext. intros k _. by apply get_Permutation.
Qed.
End canonical.

(** X9: the table [sort_keys_alphabetically] returns depends on the
    entries only, not on the order they come in: two dictionaries with
    the same entries give the same result. *)
Theorem sort_keys_alphabetically_canonical (data1 data2 : dict string) :
  dict_wf data1 → data1 ≡ₚ data2 →
  Sync.sort_keys_alphabetically data1 = Sync.sort_keys_alphabetically data2.
Proof.
  intros Hwf Hp.
  rewrite !sort_keys_alphabetically_normal_form
    by eauto using dict_wf_Permutation.
  f_equal. by apply normal_form_Permutation.
Qed.

Lemma sort_keys_alphabetically_canonical_witness :
  Sync.sort_keys_alphabetically [("bye", "Hej"); (schema_key, "x"); ("abc", "d")]
  = Sync.sort_keys_alphabetically [(schema_key, "x"); ("abc", "d"); ("bye", "Hej")].
Proof.
  apply sort_keys_alphabetically_canonical.
  - unfold dict_wf. apply (bool_decide_unpack _). vm_compute. exact I.
  - apply (Permutation_cons_append [(schema_key, "x"); ("abc", "d")] ("bye", "Hej")).
Defined.

(** *** Placeholders and duplicate groups *)

Section placeholder_groups.
Implicit Types (d : dict string) (k p : string) (order : list string).

Lemma add_placeholders_fresh order d p :
  NoDup order → (∀ k, k ∈ order → k ∉ keys d) →
  Sync.add_placeholders order d p = d ++ ((λ k, (k, p)) <$> order).
Proof.
  unfold Sync.add_placeholders. revert d.
  induction order as [|k0 order IH]; intros d Hnd Hfresh; cbn [foldl].
  { by rewrite app_nil_r. }
  apply NoDup_cons in Hnd as [Hk0 Hnd].
  rewrite set_fresh by apply Hfresh, list_elem_of_here.
  rewrite IH; [by rewrite <- app_assoc | done |].
  intros k Hk. unfold keys. rewrite fmap_app, elem_of_app. csimpl.
  rewrite list_elem_of_singleton. intros [Hd | ->]; [|done].
  apply (Hfresh k); [by apply list_elem_of_further | done].
Qed.

Lemma group_values_skipped d order p :
  Sync.skipped_value p = true →
  Sync.group_values (d ++ ((λ k, (k, p)) <$> order)) = Sync.group_values d.
Proof.
  intros Hp. unfold Sync.group_values. rewrite foldl_app.
  generalize (foldl (λ value_to_keys kv,
                let '(key, value) := kv in
                if decide (key = schema_key) then value_to_keys
                else if Sync.skipped_value value then value_to_keys
                     else append_item value_to_keys value key) [] d).
  induction order as [|k0 order IH]; intros acc; [done|].
  csimpl. rewrite Hp. destruct (decide (k0 = schema_key)); apply IH.
Qed.

Lemma skipped_value_TODO p : contains "TODO" p = true → Sync.skipped_value p = true.
Proof. intros H. unfold Sync.skipped_value. by rewrite H, !orb_true_r. Qed.
End placeholder_groups.

Section merge_groups.
Variable iter : gset string → list string.
Hypothesis iter_enumerates : ∀ s, iter s ≡ₚ elements s.

Lemma iter_NoDup s : NoDup (iter s).
Proof. rewrite iter_enumerates. apply NoDup_elements. Qed.

Lemma fill_groups (d reference : dict string) p :
  contains "TODO" p = true →
  Sync.find_duplicate_values
    (Sync.add_placeholders
       (iter (Sync.key_set reference ∖ Sync.key_set d)) d p)
  = Sync.find_duplicate_values d.
Proof.
  intros Hp. unfold Sync.find_duplicate_values.
  rewrite add_placeholders_fresh.
  - by rewrite group_values_skipped by by apply skipped_value_TODO.
  - apply iter_NoDup.
  - intros k Hk Hin. rewrite iter_enumerates, elem_of_elements in Hk.
    apply elem_of_difference in Hk as [[_ Hs]%elem_of_key_set Hn].
    apply Hn, elem_of_key_set. done.
Qed.

(** X10: filling in the missing keys never creates or changes a
    duplicate group, for any placeholder that contains "TODO", and so
    for the two placeholders of [main]. *)
Theorem placeholders_leave_duplicate_groups
    (reference target sv_data en_data : dict string) (placeholder : string) :
  (contains "TODO" placeholder = true →
     Sync.find_duplicate_values
       (Sync.merge_missing iter reference target placeholder)
     = Sync.find_duplicate_values target)
  ∧ Sync.find_duplicate_values (Sync.add_missing_keys iter sv_data en_data).1.1
    = Sync.find_duplicate_values sv_data
  ∧ Sync.find_duplicate_values (Sync.add_missing_keys iter sv_data en_data).1.2
    = Sync.find_duplicate_values en_data.
Proof.
  split_and!.
  - intros Hp. unfold Sync.merge_missing, Sync.find_missing_keys. cbn [fst].
    by apply fill_groups.
  - unfold Sync.add_missing_keys, Sync.find_missing_keys. cbn [fst snd].
    destruct (Sync.set_truth (Sync.key_set en_data ∖ Sync.key_set sv_data));
      [|done].
    by apply fill_groups.
  - unfold Sync.add_missing_keys, Sync.find_missing_keys. cbn [fst snd].
    destruct (Sync.set_truth (Sync.key_set sv_data ∖ Sync.key_set en_data));
      [|done].
    by apply fill_groups.
Qed.
End merge_groups.

Lemma placeholders_leave_duplicate_groups_witness :
  Sync.find_duplicate_values
    (Sync.merge_missing elements
       [("a", "Hej"); ("b", "Hej"); ("c", "x"); ("d", "y")]
       [("a", "Hi"); ("b", "Hi")] "[TODO: translate]")
  = Sync.find_duplicate_values [("a", "Hi"); ("b", "Hi")].
Proof.
  apply (placeholders_leave_duplicate_groups elements (λ s, reflexivity _)
           [("a", "Hej"); ("b", "Hej"); ("c", "x"); ("d", "y")]
           [("a", "Hi"); ("b", "Hi")] [] [] "[TODO: translate]").
  reflexivity.
Defined.

(** *** Writing a table, continued *)

Section save_more.
Variable with_suffix : string → string → string.
Variable json_dump : dict string → string.

Implicit Types (fs : FS.t) (file_path old : string) (data : dict string)
  (f : FS.fault).

Abbreviation save := (Sync.save_json with_suffix json_dump).
Abbreviation backup_of := (Sync.backup_of with_suffix).

Ltac fs_cases :=
  unfold Sync.save_json, Sync.save_try, FS.exists_, FS.rename, FS.unlink;
  repeat first [case_bool_decide | case_match]; simplify_eq; cbn [fst snd].

(** [save_json] touches nothing but the file and its backup. *)
Lemma save_json_frame fs file_path data dry f q :
  q ≠ file_path → q ≠ backup_of file_path →
  (save fs file_path data dry f).1 !! q = fs !! q.
Proof.
  intros H1 H2. fs_cases;
    rewrite ?lookup_insert_ne, ?lookup_delete_ne, ?lookup_insert_ne,
      ?lookup_delete_ne by done; done.
Qed.

(** Without a fault it writes the text and leaves no backup. *)
Lemma save_json_written fs file_path data :
  backup_of file_path ≠ file_path →
  (save fs file_path data false FS.NoFault).2 = true
  ∧ (save fs file_path data false FS.NoFault).1 !! file_path
    = Some (json_dump data +:+ LF)
  ∧ (save fs file_path data false FS.NoFault).1 !! backup_of file_path = None.
Proof.
  intros Hne. fs_cases; split_and!; try done;
    rewrite ?lookup_delete_eq, ?lookup_delete_ne, ?lookup_insert_eq by done;
    try done.
  all: match goal with
       | H : ¬ is_Some _ |- _ =>
           rewrite <- eq_None_not_Some in H; try done
       end.
Qed.


Lemma save_json_dry fs file_path data f :
  save fs file_path data true f = (fs, true).
Proof. done. Qed.

(** A write that fails puts the old content back (the case used by
    [main] below). *)
Lemma save_json_restores fs file_path data old f :
  fs !! file_path = Some old →
  backup_of file_path ≠ file_path →
  f = FS.OpenFails ∨ (∃ partial, f = FS.DumpFails partial) →
  (save fs file_path data false f).2 = false
  ∧ (save fs file_path data false f).1 !! file_path = Some old.
Proof.
  intros Hold Hne Hf. unfold Sync.save_json, Sync.save_try.
  rewrite (exists_true _ _ _ Hold).
  assert (FS.rename fs file_path (backup_of file_path) !! backup_of file_path
          = Some old) as Hb.
  { by rewrite (rename_lookup _ _ _ old), decide_True. }
  destruct Hf as [-> | [partial ->]].
  - rewrite (exists_true _ _ _ Hb). cbn [fst snd]. split; [done|].
    by rewrite (rename_lookup _ _ _ old), decide_True.
  - assert (<[file_path:=partial]> (FS.rename fs file_path (backup_of file_path))
              !! backup_of file_path = Some old) as Hb'.
    { by rewrite lookup_insert_ne. }
    rewrite (exists_true _ _ _ Hb'). cbn [fst snd]. split; [done|].
    by rewrite (rename_lookup _ _ _ old), decide_True.
Qed.

(** X11: the first write of a file has nothing to fall back on.  When
    neither the file nor a backup exists, a write that fails at
    [open] leaves the file system as it was, but a dump that fails
    half way leaves the part already written in the new file; in both
    cases the answer is [False].  Without a fault the file holds the
    full text. *)
Theorem save_json_new_file fs file_path data :
  fs !! file_path = None →
  fs !! backup_of file_path = None →
  backup_of file_path ≠ file_path →
  save fs file_path data false FS.NoFault
    = (<[file_path := json_dump data +:+ LF]> fs, true)
  ∧ save fs file_path data false FS.OpenFails = (fs, false)
  ∧ ∀ partial,
      save fs file_path data false (FS.DumpFails partial)
      = (<[file_path := partial]> fs, false).
Proof.
  intros Hfile Hbackup Hne.
  unfold Sync.save_json, Sync.save_try.
  rewrite (exists_false _ _ Hfile). cbn iota.
  rewrite (exists_false _ _ Hbackup).
  split_and!; [|done|].
  - by rewrite exists_false by by rewrite lookup_insert_ne.
  - intros partial. by rewrite exists_false by by rewrite lookup_insert_ne.
Qed.

(** X12: failures around the write itself, for a file that exists.
    When removing the backup fails after the new text is written, the
    backup is moved back over the new file: the old content is back
    and the answer is [False].  When the rename to the backup name
    fails, the answer is [False] and the file keeps its content,
    unless a backup of an earlier run is still there: then that older
    backup replaces the file. *)
Theorem save_json_other_failures fs file_path data old :
  fs !! file_path = Some old →
  backup_of file_path ≠ file_path →
  ((save fs file_path data false FS.UnlinkFails).2 = false
   ∧ (save fs file_path data false FS.UnlinkFails).1 !! file_path = Some old)
  ∧ ((save fs file_path data false FS.RenameFails).2 = false
     ∧ (save fs file_path data false FS.RenameFails).1 !! file_path
       = Some (default old (fs !! backup_of file_path))).
Proof.
  intros Hold Hne. split.
  - unfold Sync.save_json, Sync.save_try.
    rewrite (exists_true _ _ _ Hold).
    assert (<[file_path:=json_dump data +:+ LF]>
              (FS.rename fs file_path (backup_of file_path))
              !! backup_of file_path = Some old) as Hb.
    { rewrite lookup_insert_ne by done.
      by rewrite (rename_lookup _ _ _ old), decide_True. }
    rewrite (exists_true _ _ _ Hb). cbn [fst snd]. split; [done|].
    rewrite (exists_true _ _ _ Hb).
    by rewrite (rename_lookup _ _ _ old), decide_True.
  - unfold Sync.save_json, Sync.save_try.
    rewrite (exists_true _ _ _ Hold). cbn [fst snd]. split; [done|].
    destruct (fs !! backup_of file_path) as [stale|] eqn:E.
    + rewrite (exists_true _ _ _ E).
      by rewrite (rename_lookup _ _ _ stale), decide_True.
    + by rewrite (exists_false _ _ E).
Qed.
End save_more.

Lemma save_json_new_file_witness :
  Sync.save_json (λ p _, p +:+ ".backup") (λ _, "{...}") ∅ "en.json" []
    false (FS.DumpFails "{..")
  = (<["en.json" := "{.."]> ∅, false).
Proof.
  apply (save_json_new_file (λ p _, p +:+ ".backup") (λ _, "{...}") ∅ "en.json" []);
    done.
Defined.

Lemma save_json_other_failures_witness :
  (Sync.save_json (λ p _, p +:+ ".backup") (λ _, "{new}")
     {[ "en.json" := "{old}"; "en.json.backup" := "{older}" ]} "en.json" []
     false FS.RenameFails).1 !! "en.json" = Some "{older}".
Proof.
  refine (proj2 (proj2 (save_json_other_failures (λ p _, p +:+ ".backup")
                          (λ _, "{new}")
                          {[ "en.json" := "{old}"; "en.json.backup" := "{older}" ]}
                          "en.json" [] "{old}" _ _))); done.
Defined.
(** *** The command, continued *)

Section main_facts.
Variable iter : gset string → list string.
Variable with_suffix : string → string → string.
Variable json_dump : dict string → string.
Hypothesis iter_enumerates : ∀ s, iter s ≡ₚ elements s.

Implicit Types (o : Sync.options) (sv_data en_data : dict string)
  (fs : FS.t) (f_sv f_en : FS.fault) (sv_path en_path : string).

Abbreviation save := (Sync.save_json with_suffix json_dump).
Abbreviation backup_of := (Sync.backup_of with_suffix).
Abbreviation main := (Sync.main iter with_suffix json_dump).

Lemma add_placeholders_wf order (d : dict string) p :
  dict_wf d → dict_wf (Sync.add_placeholders order d p).
Proof.
  unfold Sync.add_placeholders. revert d.
  induction order as [|k order IH]; intros d Hwf; [done|].
  cbn [foldl]. by apply IH, dict_wf_set.
Qed.

Lemma add_missing_keys_wf sv_data en_data :
  dict_wf sv_data → dict_wf en_data →
  dict_wf (Sync.add_missing_keys iter sv_data en_data).1.1
  ∧ dict_wf (Sync.add_missing_keys iter sv_data en_data).1.2.
Proof.
  intros Hsv Hen. unfold Sync.add_missing_keys.
  destruct (Sync.find_missing_keys sv_data en_data) as [m_en m_sv].
  cbn [fst snd].
  split; destruct (Sync.set_truth _); auto using add_placeholders_wf.
Qed.

Lemma add_missing_keys_modified sv_data en_data :
  (Sync.add_missing_keys iter sv_data en_data).2 = false ↔
  Sync.find_missing_keys sv_data en_data = (∅, ∅).
Proof.
  unfold Sync.add_missing_keys.
  destruct (Sync.find_missing_keys sv_data en_data) as [m_en m_sv].
  cbn [snd]. rewrite orb_false_iff, !set_truth_false. naive_solver.
Qed.

(** The branch of [main] that changes the tables, on dictionaries. *)
Lemma main_apply o sv_path en_path sv_data en_data fs f_sv f_en :
  Sync.report_only o = false → dict_wf sv_data → dict_wf en_data →
  main o sv_path en_path sv_data en_data fs f_sv f_en =
  let added := Sync.add_missing_keys iter sv_data en_data in
  if added.2
  then
    let s1 := save fs sv_path (normal_form added.1.1) (Sync.dry_run o) f_sv in
    let s2 := save s1.1 en_path (normal_form added.1.2) (Sync.dry_run o) f_en in
    Some (if s1.2 && s2.2 then 0%Z else 2%Z, s2.1)
  else Some (0%Z, fs).
Proof.
  intros Hmode Hsv Hen. unfold Sync.main. rewrite Hmode.
  assert (Sync.add_keys o || Sync.fix_ o || Sync.auto_fix o = true) as ->.
  { unfold Sync.report_only in Hmode.
    apply orb_false_iff in Hmode as [_ H]. by apply negb_false_iff in H. }
  destruct (add_missing_keys_wf sv_data en_data Hsv Hen) as [Hsv1 Hen1].
  destruct (Sync.add_missing_keys iter sv_data en_data) as [[sv1 en1] modified].
  cbn [fst snd] in *. cbn zeta.
  rewrite !sort_keys_alphabetically_normal_form by done.
  destruct modified; cbn [orb].
  - cbn [mbind option_bind fst snd].
    destruct (save fs sv_path _ _ _) as [fs1 sv_saved]. cbn [fst snd].
    destruct (save fs1 en_path _ _ _) as [fs2 en_saved]. cbn [fst snd].
    by destruct (sv_saved && en_saved).
  - by destruct (Sync.auto_fix o).
Qed.

(** X13: with [--dry-run] the run that would change the tables writes
    nothing and exits with 0, whatever would have gone wrong in a
    write. *)
Theorem main_dry_run o sv_path en_path sv_data en_data fs f_sv f_en :
  dict_wf sv_data → dict_wf en_data →
  Sync.report_only o = false → Sync.dry_run o = true →
  main o sv_path en_path sv_data en_data fs f_sv f_en = Some (0%Z, fs).
Proof.
  intros Hsv Hen Hmode Hdry. rewrite main_apply by done. cbn zeta.
  rewrite Hdry. by destruct (Sync.add_missing_keys _ _ _).2.
Qed.

(** X14: when no key is missing in either table nothing is written and
    the exit status is 0, also with [--auto-fix]: the sorted tables
    are computed and dropped. *)
Theorem main_nothing_missing o sv_path en_path sv_data en_data fs f_sv f_en :
  dict_wf sv_data → dict_wf en_data →
  Sync.report_only o = false →
  Sync.find_missing_keys sv_data en_data = (∅, ∅) →
  main o sv_path en_path sv_data en_data fs f_sv f_en = Some (0%Z, fs).
Proof.
  intros Hsv Hen Hmode Hnone. rewrite main_apply by done. cbn zeta.
  by rewrite (proj2 (add_missing_keys_modified sv_data en_data) Hnone).
Qed.


Lemma other_keys_same_key_set (d1 d2 : dict string) :
  dict_wf d1 → dict_wf d2 → Sync.key_set d1 = Sync.key_set d2 →
  other_keys d1 = other_keys d2.
Proof.
  intros H1 H2 Hk. unfold other_keys.
  apply (StronglySorted_unique String.le); [apply sorted_StronglySorted..|].
  rewrite !sorted_Permutation.
  apply NoDup_Permutation; [by apply NoDup_filter..|].
  intros k. rewrite !list_elem_of_filter.
  pose proof (elem_of_key_set d1 k) as E1.
  pose proof (elem_of_key_set d2 k) as E2.
  rewrite Hk in E1. naive_solver.
Qed.

Lemma add_missing_keys_keeps sv_data en_data k v :
  (get sv_data k = Some v →
     get (Sync.add_missing_keys iter sv_data en_data).1.1 k = Some v)
  ∧ (get en_data k = Some v →
     get (Sync.add_missing_keys iter sv_data en_data).1.2 k = Some v).
Proof.
  unfold Sync.add_missing_keys, Sync.find_missing_keys. cbn [fst snd].
  rewrite !(guarded_add_placeholders iter iter_enumerates).
  rewrite !get_add_placeholders.
  split; intros Hget; rewrite decide_False; try done;
    rewrite (elem_of_iter iter iter_enumerates), elem_of_difference,
      !elem_of_key_set;
    apply get_Some_keys in Hget; naive_solver.
Qed.

(** X16: a run that adds the missing keys and meets no fault exits
    with 0 and leaves in each file the text of a table that is in
    sorted form, still holds every entry the loaded table had, and
    lists the same translation keys in the same order as the other
    table. *)
Theorem main_apply_success o sv_path en_path sv_data en_data fs :
  dict_wf sv_data → dict_wf en_data →
  Sync.report_only o = false → Sync.dry_run o = false →
  Sync.find_missing_keys sv_data en_data ≠ (∅, ∅) →
  sv_path ≠ en_path →
  backup_of sv_path ≠ sv_path → backup_of en_path ≠ en_path →
  backup_of en_path ≠ sv_path →
  ∃ sv' en' fs',
    main o sv_path en_path sv_data en_data fs FS.NoFault FS.NoFault
      = Some (0%Z, fs')
    ∧ fs' !! sv_path = Some (json_dump sv' +:+ LF)
    ∧ fs' !! en_path = Some (json_dump en' +:+ LF)
    ∧ Sync.sort_keys_alphabetically sv' = Some sv'
    ∧ Sync.sort_keys_alphabetically en' = Some en'
    ∧ filter (λ k, k ≠ schema_key) (keys sv')
      = filter (λ k, k ≠ schema_key) (keys en')
    ∧ (∀ k v, get sv_data k = Some v → get sv' k = Some v)
    ∧ (∀ k v, get en_data k = Some v → get en' k = Some v).
Proof.
  intros Hsv Hen Hmode Hdry Hmiss Hp Hbs Hbe Hbes.
  rewrite main_apply by done. cbn zeta. rewrite Hdry.
  pose proof (add_missing_keys_wf sv_data en_data Hsv Hen) as [Hsv1 Hen1].
  pose proof (add_missing_keys_keeps sv_data en_data) as Hkeep.
  pose proof (proj1 (add_missing_keys_modified sv_data en_data)) as Hmod.
  destruct (Sync.add_missing_keys iter sv_data en_data)
    as [[sv1 en1] modified] eqn:Hadd.
  cbn [fst snd] in *.
  destruct modified; [|by specialize (Hmod eq_refl)].
  destruct (add_missing_keys_key_sets iter iter_enumerates _ _ _ _ _ Hadd)
    as [Hk1 Hk2].
  destruct (save_json_written with_suffix json_dump fs sv_path
              (normal_form sv1) Hbs) as (Hs1 & Hs1f & _).
  set (s1 := save fs sv_path (normal_form sv1) false FS.NoFault) in *.
  destruct (save_json_written with_suffix json_dump s1.1 en_path
              (normal_form en1) Hbe) as (Hs2 & Hs2f & _).
  exists (normal_form sv1), (normal_form en1). eexists. split_and!.
  - by rewrite Hs1, Hs2.
  - rewrite save_json_frame by done. done.
  - done.
  - rewrite sort_keys_alphabetically_normal_form by by apply normal_form_wf.
    by rewrite normal_form_idem.
  - rewrite sort_keys_alphabetically_normal_form by by apply normal_form_wf.
    by rewrite normal_form_idem.
  - rewrite !filter_keys_normal_form.
    apply other_keys_same_key_set; [done..|]. by rewrite Hk1, Hk2.
  - intros k v Hget. rewrite get_normal_form. by apply Hkeep.
  - intros k v Hget. rewrite get_normal_form. by apply Hkeep.
Qed.

(** X17: when the write of the first table fails at [open] or during
    the dump, the exit status is 2 and that file holds the content it
    had before, whatever happens to the write of the second table.
    That write is attempted all the same: when it meets no fault, the
    second file holds the text of the sorted second table, which still
    has every entry the loaded table had, and no backup is left. *)
Theorem main_write_failure o sv_path en_path sv_data en_data fs f_sv f_en old :
  dict_wf sv_data → dict_wf en_data →
  Sync.report_only o = false → Sync.dry_run o = false →
  Sync.find_missing_keys sv_data en_data ≠ (∅, ∅) →
  sv_path ≠ en_path →
  backup_of sv_path ≠ sv_path → backup_of en_path ≠ sv_path →
  backup_of en_path ≠ en_path →
  fs !! sv_path = Some old →
  f_sv = FS.OpenFails ∨ (∃ partial, f_sv = FS.DumpFails partial) →
  ∃ en' fs',
    main o sv_path en_path sv_data en_data fs f_sv f_en = Some (2%Z, fs')
    ∧ fs' !! sv_path = Some old
    ∧ Sync.sort_keys_alphabetically en' = Some en'
    ∧ (∀ k v, get en_data k = Some v → get en' k = Some v)
    ∧ (∀ k, k ∈ keys sv_data → k ≠ schema_key → k ∈ keys en')
    ∧ (f_en = FS.NoFault →
         fs' !! en_path = Some (json_dump en' +:+ LF)
         ∧ fs' !! backup_of en_path = None).
Proof.
  intros Hsv Hen Hmode Hdry Hmiss Hp Hbs Hbes Hbe Hold Hf.
  rewrite main_apply by done. cbn zeta. rewrite Hdry.
  pose proof (add_missing_keys_wf sv_data en_data Hsv Hen) as [Hsv1 Hen1].
  pose proof (add_missing_keys_keeps sv_data en_data) as Hkeep.
  pose proof (proj1 (add_missing_keys_modified sv_data en_data)) as Hmod.
  destruct (Sync.add_missing_keys iter sv_data en_data)
    as [[sv1 en1] modified] eqn:Hadd.
  cbn [fst snd] in *.
  destruct modified; [|by specialize (Hmod eq_refl)].
  destruct (add_missing_keys_key_sets iter iter_enumerates _ _ _ _ _ Hadd)
    as [_ Hk2].
  destruct (save_json_restores with_suffix json_dump fs sv_path
              (normal_form sv1) old f_sv Hold Hbs Hf) as [Hs1 Hs1f].
  set (s1 := save fs sv_path (normal_form sv1) false f_sv) in *.
  exists (normal_form en1). eexists. split_and!.
  - by rewrite Hs1.
  - rewrite save_json_frame by done. done.
  - rewrite sort_keys_alphabetically_normal_form by by apply normal_form_wf.
    by rewrite normal_form_idem.
  - intros k v Hget. rewrite get_normal_form. by apply Hkeep.
  - intros k Hin Hschema. apply elem_of_keys_normal_form.
    assert (k ∈ Sync.key_set en1) as [? _]%elem_of_key_set; [|done].
    rewrite Hk2, elem_of_union, elem_of_key_set. by left.
  - intros ->.
    destruct (save_json_written with_suffix json_dump s1.1 en_path
                (normal_form en1) Hbe) as (_ & Hw & Hb).
    done.
Qed.
End main_facts.

Lemma main_dry_run_witness :
  Sync.main elements (λ p _, p +:+ ".backup") (λ _, "{...}")
    {| Sync.check := false; Sync.add_keys := true; Sync.fix_ := false;
       Sync.auto_fix := false; Sync.dry_run := true |}
    "sv.json" "en.json" [("a", "Hej"); ("b", "Bra")] [("a", "Hello")]
    {[ "sv.json" := "{sv}"; "en.json" := "{en}" ]} FS.OpenFails FS.NoFault
  = Some (0%Z, {[ "sv.json" := "{sv}"; "en.json" := "{en}" ]}).
Proof.
  apply main_dry_run; try reflexivity;
    unfold dict_wf; apply (bool_decide_unpack _); vm_compute; exact I.
Defined.

Lemma main_nothing_missing_witness :
  Sync.main elements (λ p _, p +:+ ".backup") (λ _, "{...}")
    {| Sync.check := false; Sync.add_keys := false; Sync.fix_ := false;
       Sync.auto_fix := true; Sync.dry_run := false |}
    "sv.json" "en.json" [("b", "Bra"); ("a", "Hej")] [("a", "Hello"); ("b", "Good")]
    {[ "sv.json" := "{sv}"; "en.json" := "{en}" ]} FS.NoFault FS.NoFault
  = Some (0%Z, {[ "sv.json" := "{sv}"; "en.json" := "{en}" ]}).
Proof.
  apply main_nothing_missing; try reflexivity;
    unfold dict_wf; apply (bool_decide_unpack _); vm_compute; exact I.
Defined.


Lemma main_apply_success_witness :
  ∃ sv' en' fs',
    Sync.main elements (λ p _, p +:+ ".backup") (λ _, "{...}")
      {| Sync.check := false; Sync.add_keys := true; Sync.fix_ := false;
         Sync.auto_fix := false; Sync.dry_run := false |}
      "sv.json" "en.json" [("b", "Bra"); ("a", "Hej")] [("a", "Hello")]
      {[ "sv.json" := "{sv}"; "en.json" := "{en}" ]} FS.NoFault FS.NoFault
    = Some (0%Z, fs')
    ∧ fs' !! "sv.json" = Some ((λ _ : dict string, "{...}") sv' +:+ LF)
    ∧ fs' !! "en.json" = Some ((λ _ : dict string, "{...}") en' +:+ LF)
    ∧ filter (λ k, k ≠ schema_key) (keys sv')
      = filter (λ k, k ≠ schema_key) (keys en').
Proof.
  destruct (main_apply_success elements (λ p _, p +:+ ".backup") (λ _, "{...}")
              (λ s, reflexivity _)
              {| Sync.check := false; Sync.add_keys := true; Sync.fix_ := false;
                 Sync.auto_fix := false; Sync.dry_run := false |}
              "sv.json" "en.json" [("b", "Bra"); ("a", "Hej")] [("a", "Hello")]
              {[ "sv.json" := "{sv}"; "en.json" := "{en}" ]})
    as (sv' & en' & fs' & Hrun & Hsv & Hen & _ & _ & Hkeys & _);
    try done;
    try (unfold dict_wf; apply (bool_decide_unpack _); vm_compute; exact I).
  all: first [ by exists sv', en', fs'
             | apply (bool_decide_unpack _); vm_compute; exact I ].
Defined.

Lemma main_write_failure_witness :
  ∃ en' fs',
    Sync.main elements (λ p _, p +:+ ".backup") (λ _, "{...}")
      {| Sync.check := false; Sync.add_keys := true; Sync.fix_ := false;
         Sync.auto_fix := false; Sync.dry_run := false |}
      "sv.json" "en.json" [("b", "Bra"); ("a", "Hej")] [("a", "Hello"); ("c", "x")]
      {[ "sv.json" := "{sv}"; "en.json" := "{en}" ]} (FS.DumpFails "{") FS.NoFault
    = Some (2%Z, fs')
    ∧ fs' !! "sv.json" = Some "{sv}"
    ∧ fs' !! "en.json" = Some ((λ _ : dict string, "{...}") en' +:+ LF)
    ∧ get en' "c" = Some "x" ∧ "b" ∈ keys en'.
Proof.
  destruct (main_write_failure elements (λ p _, p +:+ ".backup") (λ _, "{...}")
              (λ s, reflexivity _)
              {| Sync.check := false; Sync.add_keys := true; Sync.fix_ := false;
                 Sync.auto_fix := false; Sync.dry_run := false |}
              "sv.json" "en.json" [("b", "Bra"); ("a", "Hej")]
              [("a", "Hello"); ("c", "x")]
              {[ "sv.json" := "{sv}"; "en.json" := "{en}" ]}
              (FS.DumpFails "{") FS.NoFault "{sv}")
    as (en' & fs' & Hrun & Hold & _ & Hkeep & Hall & Hwrite);
    try done;
    try (unfold dict_wf; apply (bool_decide_unpack _); vm_compute; exact I).
  all: first [ by right; exists "{"
             | apply (bool_decide_unpack _); vm_compute; exact I
             | idtac ].
  exists en', fs'. split_and!; [done | done | by apply Hwrite | by apply Hkeep |].
  apply Hall; apply (bool_decide_unpack _); vm_compute; exact I.
Defined.

(** *** The usage scanner, continued *)

Section scanner_more.
Implicit Types (key line content : string) (lines : list string)
  (found : dict (list nat)).

Lemma key_at_valid prev_word c r key :
  Extract.key_at prev_word c r = Some key →
  Sync.validate_snake_case key = true.
Proof.
  unfold Extract.key_at. destruct (negb prev_word && _); [|done].
  destruct r as [|d [|k0 r']]; [done..|].
  destruct (bool_decide (d = "."%char) && is_lower_az k0 && _) eqn:E; [|done].
  intros [= <-]. apply andb_true_iff in E as [[_ Hk0]%andb_true_iff _].
  cbn [Sync.validate_snake_case]. rewrite Hk0.
  apply snake_tail_forallb, span_forallb.
Qed.

Lemma findall_from_valid prev_word skip line key :
  key ∈ Extract.findall_from prev_word skip line →
  Sync.validate_snake_case key = true.
Proof.
  revert prev_word skip. induction line as [|c r IH]; intros prev_word skip.
  { intros H. by apply elem_of_nil in H. }
  cbn [Extract.findall_from]. destruct skip as [|n]; [|apply IH].
  destruct (Extract.key_at prev_word c r) as [k|] eqn:E; [|apply IH].
  intros [->|Hin]%elem_of_cons; [by eapply key_at_valid | by eapply IH].
Qed.

Lemma elem_of_set_entry {V} (d : dict V) k v e :
  e ∈ set d k v → e = (k, v) ∨ e ∈ d.
Proof.
  induction d as [|[k0 v0] d IH]; cbn [set].
  - intros ->%list_elem_of_singleton. by left.
  - destruct (decide (k0 = k)) as [->|Hne].
    + intros [->|Hin]%elem_of_cons; [by left|].
      right. by apply list_elem_of_further.
    + intros [->|Hin]%elem_of_cons; [right; apply list_elem_of_here|].
      destruct (IH Hin) as [->|Hd]; [by left|].
      right. by apply list_elem_of_further.
Qed.

Lemma set_not_nil {V} (d : dict V) k v : set d k v ≠ [].
Proof. destruct d as [|[k0 v0] d]; cbn [set]; [done|]. by destruct (decide _). Qed.

Lemma elem_of_append_item {A} (d : dict (list A)) k x e :
  e ∈ append_item d k x → e.2 ≠ [] ∨ e ∈ d.
Proof.
  unfold append_item. destruct (get d k) as [xs|].
  - intros [->|Hin]%elem_of_set_entry; [left | by right].
    cbn [snd]. by destruct xs.
  - intros [->|Hin]%elem_of_set_entry; [by left | by right].
Qed.

Lemma get_append_item_entry {A} (d : dict (list A)) k x k' :
  get (append_item d k x) k' =
  if decide (k = k') then extend_entry (get d k) [x] else get d k'.
Proof.
  unfold append_item. destruct (decide (k = k')) as [->|Hne].
  - destruct (get d k'); by rewrite get_set_eq.
  - destruct (get d k); by rewrite get_set_ne.
Qed.

Lemma extend_entry_assoc {A} (g : option (list A)) xs ys :
  extend_entry (extend_entry g xs) ys = extend_entry g (xs ++ ys).
Proof.
  destruct g as [l|]; cbn.
  - by rewrite <- app_assoc.
  - destruct xs; cbn; [by destruct ys | done].
Qed.

Lemma extend_entry_nil {A} (g : option (list A)) : extend_entry g [] = g.
Proof. destruct g; cbn; by rewrite ?app_nil_r. Qed.

(** Recording the keys found on one line. *)
Lemma get_record_line found (ks : list string) n key :
  get (foldl (λ found key, append_item found key n) found ks) key
  = extend_entry (get found key)
      (replicate (List.length (filter (λ k, k = key) ks)) n).
Proof.
  revert found. induction ks as [|k ks IH]; intros found.
  { cbn. by rewrite extend_entry_nil. }
  cbn [foldl]. rewrite IH, get_append_item_entry, filter_cons.
  destruct (decide (k = key)) as [->|Hne]; [|done].
  rewrite extend_entry_assoc. done.
Qed.

Lemma get_scan_lines start lines found key :
  get (scan_lines start lines found) key
  = extend_entry (get found key) (line_hits key start lines).
Proof.
  revert start found. induction lines as [|l lines IH]; intros start found.
  { cbn. by rewrite extend_entry_nil. }
  rewrite scan_lines_cons, IH, get_record_line, extend_entry_assoc. done.
Qed.

Lemma elem_of_line_hits key start lines n :
  n ∈ line_hits key start lines ↔
  ∃ i l, n = (start + i)%nat ∧ lines !! i = Some l ∧ key ∈ Extract.findall l.
Proof.
  revert start. induction lines as [|l lines IH]; intros start; cbn [line_hits].
  { split; [by intros ?%elem_of_nil | by intros (i & l & _ & ? & _)]. }
  rewrite elem_of_app, IH, elem_of_replicate. split.
  - intros [[-> Hlen] | (i & l' & -> & Hl & Hk)].
    + exists 0, l. split_and!; [lia | done |].
      destruct (filter _ _) as [|k ks] eqn:E; [done|].
      assert (k ∈ filter (λ k, k = key) (Extract.findall l)) as Hin
        by (rewrite E; apply list_elem_of_here).
      by apply list_elem_of_filter in Hin as [-> ?].
    + exists (S i), l'. split_and!; [lia | done..].
  - intros ([|i] & l' & -> & Hl & Hk).
    + left. injection Hl as <-. split; [lia|].
      assert (key ∈ filter (λ k, k = key) (Extract.findall l)) as Hin
        by by apply list_elem_of_filter.
      destruct (filter _ _); [by apply elem_of_nil in Hin | done].
    + right. exists i, l'. split_and!; [lia | done..].
Qed.

Lemma line_hits_from key start lines n :
  n ∈ line_hits key start lines → (start ≤ n)%nat.
Proof. intros (i & l & -> & _)%elem_of_line_hits. lia. Qed.

Lemma replicate_sorted count (n : nat) : StronglySorted le (replicate count n).
Proof.
  induction count as [|count IH]; cbn; constructor; [done|].
  apply Forall_forall. by intros m ->%elem_of_replicate_inv.
Qed.

Lemma line_hits_sorted key start lines :
  StronglySorted le (line_hits key start lines).
Proof.
  revert start. induction lines as [|l lines IH]; intros start; cbn [line_hits].
  { constructor. }
  apply StronglySorted_app_2; [|apply replicate_sorted|apply IH].
  intros n m ->%elem_of_replicate_inv Hm%line_hits_from. lia.
Qed.

Lemma foldl_invariant {A B} (P : A → Prop) (f : A → B → A) (l : list B) a :
  P a → (∀ a x, x ∈ l → P a → P (f a x)) → P (foldl f a l).
Proof.
  revert a. induction l as [|x l IH]; intros a Ha Hstep; [done|].
  cbn [foldl]. apply IH.
  - apply Hstep; [apply list_elem_of_here | done].
  - intros a' y Hy. apply Hstep. by apply list_elem_of_further.
Qed.

Lemma append_item_dict_wf {A} (d : dict (list A)) k x :
  dict_wf d → dict_wf (append_item d k x).
Proof. unfold append_item. destruct (get d k); apply dict_wf_set. Qed.

Lemma scan_lines_wf start lines found :
  dict_wf found → dict_wf (scan_lines start lines found).
Proof.
  intros Hwf. unfold scan_lines. apply foldl_invariant; [done|].
  intros acc [n l] _ Hacc. apply foldl_invariant; [done|].
  intros acc' k _. apply append_item_dict_wf.
Qed.

Lemma scan_lines_nonempty start lines found :
  Forall (λ e, e.2 ≠ []) found →
  Forall (λ e, e.2 ≠ []) (scan_lines start lines found).
Proof.
  intros Hne. unfold scan_lines. apply foldl_invariant; [done|].
  intros acc [n l] _ Hacc. apply foldl_invariant; [done|].
  intros acc' k _ Hacc'. apply Forall_forall.
  intros e [He|He]%elem_of_append_item; [done|].
  rewrite Forall_forall in Hacc'. auto.
Qed.

Lemma line_hits_nil key start lines :
  line_hits key start lines ≠ [] ↔
  ∃ l, l ∈ lines ∧ key ∈ Extract.findall l.
Proof.
  split.
  - destruct (line_hits key start lines) as [|n ns] eqn:E; [done|]. intros _.
    assert (n ∈ line_hits key start lines) as Hn
      by (rewrite E; apply list_elem_of_here).
    apply elem_of_line_hits in Hn as (i & l & _ & Hl & Hk).
    exists l. split; [|done]. by eapply list_elem_of_lookup_2.
  - intros (l & [i Hi]%list_elem_of_lookup_1 & Hk) Hnil.
    assert ((start + i)%nat ∈ line_hits key start lines) as Hin.
    { apply elem_of_line_hits. by exists i, l. }
    rewrite Hnil in Hin. by apply elem_of_nil in Hin.
Qed.

Lemma get_extract content key :
  get (Extract.extract_translation_keys (Some content)) key
  = extend_entry None (line_hits key 1 (split_lines content)).
Proof. by rewrite extract_translation_keys_scan, get_scan_lines. Qed.

Lemma elem_of_keys_extract content key :
  key ∈ keys (Extract.extract_translation_keys (Some content)) ↔
  ∃ l, l ∈ split_lines content ∧ key ∈ Extract.findall l.
Proof.
  rewrite <- get_is_Some, get_extract, <- (line_hits_nil key 1).
  destruct (line_hits key 1 (split_lines content)); cbn.
  - split; [by intros [? ?] | by intros []].
  - split; [done | by eexists].
Qed.

Lemma extract_entries_nonempty (content : option string) :
  Forall (λ e, e.2 ≠ []) (Extract.extract_translation_keys content).
Proof.
  destruct content as [content|]; [|constructor].
  rewrite extract_translation_keys_scan. apply scan_lines_nonempty. constructor.
Qed.

Lemma extract_keys_valid (content : option string) key :
  key ∈ keys (Extract.extract_translation_keys content) →
  Sync.validate_snake_case key = true.
Proof.
  destruct content as [content|]; [|by intros ?%elem_of_nil].
  intros (l & _ & Hk)%elem_of_keys_extract.
  by eapply findall_from_valid.
Qed.
End scanner_more.

(** X20: for a file that can be read, [extract_translation_keys]
    returns a dictionary whose keys are exactly the keys the scanner
    finds on some line, each with the non-empty ascending list of the
    numbers (from 1) of the lines on which it is found. *)
Theorem extract_translation_keys_exact (content key : string) :
  let found := Extract.extract_translation_keys (Some content) in
  let lines := split_lines content in
  dict_wf found
  ∧ (key ∈ keys found ↔ ∃ l, l ∈ lines ∧ key ∈ Extract.findall l)
  ∧ ∀ ns, get found key = Some ns →
      ns ≠ [] ∧ StronglySorted le ns
      ∧ ∀ n, n ∈ ns ↔
             ∃ l, (1 ≤ n)%nat ∧ lines !! (n - 1)%nat = Some l
                  ∧ key ∈ Extract.findall l.
Proof.
  cbn zeta. split_and!.
  - rewrite extract_translation_keys_scan. apply scan_lines_wf, NoDup_nil_2.
  - apply elem_of_keys_extract.
  - intros ns. rewrite get_extract.
    destruct (line_hits key 1 (split_lines content)) as [|n0 hits] eqn:E; [done|].
    cbn [extend_entry]. intros [= <-]. rewrite <- E. split_and!.
    + by rewrite E.
    + apply line_hits_sorted.
    + intros n. rewrite elem_of_line_hits. split.
      * intros (i & l & -> & Hl & Hk). exists l. split_and!; [lia | | done].
        by replace (1 + i - 1)%nat with i by lia.
      * intros (l & Hn & Hl & Hk). exists (n - 1)%nat, l. split_and!; [lia | done..].
Qed.

(** X18: every key the scan reports as used satisfies the naming
    convention; so a key that [find_naming_violations] lists for a table
    is never among the used keys. *)
Theorem used_keys_are_valid
    (svelte_files : list (string * option string)) (table : dict string)
    (key : string) :
  key ∈ (Extract.scan_all_svelte_files svelte_files).1 →
  Sync.validate_snake_case key = true
  ∧ key ∉ (Sync.find_naming_violations table).*1.
Proof.
  intros Hin.
  assert (Sync.validate_snake_case key = true) as Hv.
  { revert Hin. unfold Extract.scan_all_svelte_files.
    apply (foldl_invariant
             (λ acc : gset string * dict (dict (list nat)),
                key ∈ acc.1 → Sync.validate_snake_case key = true)).
    { intros H. by apply not_elem_of_empty in H. }
    intros acc [path content] _ Hacc.
    apply (foldl_invariant
             (λ acc : gset string * dict (dict (list nat)),
                key ∈ acc.1 → Sync.validate_snake_case key = true)); [done|].
    intros [used locs] [k ns] Hk Hacc'. cbn [fst] in *.
    intros [->%elem_of_singleton | Hu]%elem_of_union; [|auto].
    apply (extract_keys_valid content). unfold keys.
    apply list_elem_of_fmap. by exists (k, ns). }
  split; [done|].
  intros (_ & _ & Hf)%elem_of_naming_violations. congruence.
Qed.

Lemma used_keys_are_valid_witness :
  Sync.validate_snake_case "bye" = true
  ∧ ("bye" ∉ (Sync.find_naming_violations [("helloWorld", "Hej")]).*1).
Proof.
  apply (used_keys_are_valid [("a.svelte", Some "<p>{m.bye()}</p>")]).
  by vm_compute.
Defined.

(** X19: a file that cannot be read contributes nothing: no key is
    extracted from it, and the scan gives the same result as without
    it. *)
Theorem unreadable_file_is_skipped
    (before after : list (string * option string)) (path : string) :
  Extract.extract_translation_keys None = []
  ∧ Extract.scan_all_svelte_files (before ++ (path, None) :: after)
    = Extract.scan_all_svelte_files (before ++ after).
Proof.
  split; [done|]. unfold Extract.scan_all_svelte_files.
  by rewrite !foldl_app.
Qed.

(** X21: the missing-keys report of i18n-extract never indexes out of
    range: for a key the scan found it prints a first file and a first
    line, for any other key it prints the key alone. *)
Theorem missing_entry_defined
    (svelte_files : list (string * option string)) (key : string) :
  let index := Extract.scan_all_svelte_files svelte_files in
  (key ∈ index.1 →
     ∃ first_file first_line more,
       Extract.missing_entry index.2 key = Extract.UsedIn first_file first_line more)
  ∧ (key ∉ index.1 → Extract.missing_entry index.2 key = Extract.KeyOnly).
Proof.
  cbn zeta.
  assert (let index := Extract.scan_all_svelte_files svelte_files in
          (∀ k, k ∈ index.1 ↔ k ∈ keys index.2)
          ∧ ∀ k fl, get index.2 k = Some fl →
              fl ≠ [] ∧ ∀ e, e ∈ fl → e.2 ≠ []) as [Hdom Hne].
  { cbn zeta. unfold Extract.scan_all_svelte_files.
    apply (foldl_invariant
             (λ acc : gset string * dict (dict (list nat)),
                (∀ k, k ∈ acc.1 ↔ k ∈ keys acc.2)
                ∧ ∀ k fl, get acc.2 k = Some fl →
                    fl ≠ [] ∧ ∀ e : string * list nat, e ∈ fl → e.2 ≠ [])).
    { split; [|done]. intros k. split; [by intros ?%not_elem_of_empty|].
      by intros ?%elem_of_nil. }
    intros acc [path content] _ Hacc.
    pose proof (extract_entries_nonempty content) as Hlines.
    rewrite Forall_forall in Hlines.
    apply foldl_invariant; [done|].
    intros [used locs] [k ns] Hk [Hd Hn]. cbn [fst snd] in *. split.
    - intros k'. rewrite elem_of_union, elem_of_singleton, elem_of_keys_set, Hd.
      done.
    - intros k' fl. destruct (decide (k = k')) as [<-|Hkk].
      + rewrite get_set_eq. intros [= <-]. split; [apply set_not_nil|].
        intros e [->|He]%elem_of_set_entry; [by apply (Hlines (k, ns))|].
        destruct (get locs k) as [fl0|] eqn:E; [|by apply elem_of_nil in He].
        by apply (Hn k fl0).
      + rewrite get_set_ne by done. apply Hn. }
  cbn zeta in Hdom, Hne. unfold Extract.missing_entry. split.
  - intros Hin. apply Hdom, get_is_Some in Hin as [fl Hfl]. rewrite Hfl.
    destruct (Hne key fl Hfl) as [Hnil Hall].
    destruct fl as [|[p ns] fl]; [done|].
    specialize (Hall (p, ns) (list_elem_of_here _ _)). cbn [snd] in Hall.
    unfold keys. cbn. rewrite decide_True by done.
    destruct ns as [|n ns]; [done|]. cbn. eauto.
  - intros Hnin. rewrite Hdom in Hnin. apply get_None in Hnin. by rewrite Hnin.
Qed.

Lemma missing_entry_defined_witness :
  ∃ first_file first_line more,
    Extract.missing_entry
      (Extract.scan_all_svelte_files
         [("a.svelte", Some "x"); ("b.svelte", Some ("<p>" +:+ LF +:+ "{m.bye()}"))]).2
      "bye"
    = Extract.UsedIn first_file first_line more.
Proof.
  apply (missing_entry_defined
           [("a.svelte", Some "x"); ("b.svelte", Some ("<p>" +:+ LF +:+ "{m.bye()}"))]
           "bye").
  by vm_compute.
Defined.

(** *** The reports and the exit test of i18n-extract *)

Section reports.
Implicit Types (sv_data en_data : dict string) (used_keys : gset string)
  (limit : Z) (key : string).

Lemma location_label_cases (in_sv in_en : bool) :
  in_sv || in_en = true →
  Extract.location_label in_sv in_en
  = if in_sv then (if in_en then "sv + en" else "sv only") else "en only".
Proof. by destruct in_sv, in_en. Qed.

Lemma take_sorted_below (l : list string) n k k' :
  StronglySorted String.le l →
  k ∈ l → k ∉ take n l → k' ∈ take n l → String.le k' k.
Proof.
  intros Hs Hk Hnk Hk'. rewrite <- (take_drop n l) in Hs, Hk.
  apply elem_of_app in Hk as [Hk|Hk]; [done|].
  by eapply StronglySorted_app_1_elem_of.
Qed.

Lemma scan_file_used (acc : gset string * dict (dict (list nat)))
    (path : string) (kls : dict (list nat)) key :
  key ∈ (foldl (λ acc' kl,
                  let '(used_keys, key_locations) := acc' in
                  let '(k, line_numbers) := kl in
                  ({[k]} ∪ used_keys,
                   set key_locations k
                     (set (default [] (get key_locations k))
                          path line_numbers)))
               acc kls).1
  ↔ key ∈ acc.1 ∨ key ∈ keys kls.
Proof.
  revert acc. induction kls as [|[k ns] kls IH]; intros [used locs].
  { cbn. split; [by left | by intros [?|?%elem_of_nil]]. }
  cbn [foldl]. rewrite IH. cbn [fst]. unfold keys. cbn [fmap list_fmap fst].
  rewrite elem_of_union, elem_of_singleton, elem_of_cons. naive_solver.
Qed.

Lemma elem_of_scan_used (svelte_files : list (string * option string)) key :
  key ∈ (Extract.scan_all_svelte_files svelte_files).1 ↔
  ∃ path content, (path, content) ∈ svelte_files
                  ∧ key ∈ keys (Extract.extract_translation_keys content).
Proof.
  unfold Extract.scan_all_svelte_files.
  enough (∀ acc : gset string * dict (dict (list nat)),
            key ∈ (foldl (λ acc file,
               let '(path, content) := file in
               let keys_in_file := Extract.extract_translation_keys content in
               foldl (λ acc' kl,
                        let '(used_keys, key_locations) := acc' in
                        let '(key, line_numbers) := kl in
                        ({[key]} ∪ used_keys,
                         set key_locations key
                           (set (default [] (get key_locations key))
                                path line_numbers)))
                     acc keys_in_file) acc svelte_files).1
            ↔ key ∈ acc.1 ∨
              ∃ path content, (path, content) ∈ svelte_files
                ∧ key ∈ keys (Extract.extract_translation_keys content)) as H.
  { rewrite H. cbn [fst]. split; [|by right].
    by intros [?%not_elem_of_empty|?]. }
  induction svelte_files as [|[path content] files IH]; intros acc.
  { cbn. split; [by left|]. by intros [?|(? & ? & ?%elem_of_nil & _)]. }
  cbn [foldl]. rewrite IH. cbn zeta. rewrite scan_file_used. split.
  - intros [[?|?]|(p & c & ? & ?)]; [by left | right..].
    + exists path, content. split; [apply list_elem_of_here | done].
    + exists p, c. split; [by apply list_elem_of_further | done].
  - intros [?|(p & c & [[= -> ->]|?]%elem_of_cons & ?)].
    + by left; left.
    + by left; right.
    + right. by exists p, c.
Qed.
End reports.

(** X22: with a limit that is not negative, the unused-keys report lists
    the first [limit] unused keys in ascending order without repetition,
    each with a label that names truthfully the tables holding it (the
    empty label never occurs); every unused key left out comes after
    all the listed ones; and the number announced as more, together
    with the listed keys, counts exactly the unused keys. *)
Theorem unused_report_listing
    (sv_data en_data : dict string) (used_keys : gset string) (limit : Z)
    (entries : list (string * string)) (more : option Z) :
  (0 ≤ limit)%Z →
  Extract.unused_report sv_data en_data used_keys limit
  = Some (entries, more) →
  let sv_keys := Sync.key_set sv_data in
  let en_keys := Sync.key_set en_data in
  let unused_keys := (sv_keys ∪ en_keys) ∖ used_keys in
  StronglySorted String.le entries.*1
  ∧ NoDup entries.*1
  ∧ Z.of_nat (List.length entries)
    = Z.min limit (Z.of_nat (size unused_keys))
  ∧ (∀ key label, (key, label) ∈ entries →
       key ∈ unused_keys
       ∧ (label = "sv + en" ∧ key ∈ sv_keys ∧ key ∈ en_keys
          ∨ label = "sv only" ∧ key ∈ sv_keys ∧ (key ∉ en_keys)
          ∨ label = "en only" ∧ (key ∉ sv_keys) ∧ key ∈ en_keys))
  ∧ (∀ key key', key ∈ unused_keys → key ∉ entries.*1 →
       key' ∈ entries.*1 → String.le key' key)
  ∧ match more with
    | Some n => (0 < n)%Z
                ∧ (Z.of_nat (List.length entries) + n
                   = Z.of_nat (size unused_keys))%Z
    | None => ∀ key, key ∈ unused_keys → key ∈ entries.*1
    end.
Proof.
  intros Hlimit. unfold Extract.unused_report. cbn zeta.
  set (sv_keys := Sync.key_set sv_data). set (en_keys := Sync.key_set en_data).
  set (unused_keys := (sv_keys ∪ en_keys) ∖ used_keys).
  set (sorted_unused := Sync.sorted (elements unused_keys)).
  case_bool_decide as Hne; [done|]. intros [= <- <-].
  assert (Extract.slice_to limit sorted_unused
          = take (Z.to_nat limit) sorted_unused) as ->.
  { unfold Extract.slice_to. by rewrite (proj2 (Z.leb_le 0 limit)). }
  assert (∀ k, k ∈ sorted_unused ↔ k ∈ unused_keys) as Hsorted.
  { intros k. unfold sorted_unused. by rewrite elem_of_sorted, elem_of_elements. }
  assert (List.length sorted_unused = size unused_keys) as Hlen.
  { unfold sorted_unused. by rewrite (sorted_Permutation _). }
  assert (NoDup sorted_unused) as Hnodup.
  { unfold sorted_unused. rewrite (sorted_Permutation _). apply NoDup_elements. }
  assert (StronglySorted String.le sorted_unused) as Hss
    by apply sorted_StronglySorted.
  rewrite <- list_fmap_compose.
  assert (∀ l : list string,
            (fst ∘ (λ key, (key, Extract.location_label
                                   (bool_decide (key ∈ sv_keys))
                                   (bool_decide (key ∈ en_keys))))) <$> l = l)
    as Hfst.
  { intros l. rewrite <- (list_fmap_id l) at 2. by apply list_fmap_ext. }
  rewrite Hfst, length_fmap, length_take, Hlen.
  split_and!.
  - rewrite <- (take_drop (Z.to_nat limit) sorted_unused) in Hss.
    by apply StronglySorted_app_1_l in Hss.
  - eapply sublist_NoDup; [done | apply sublist_take].
  - lia.
  - intros key label (k & [= -> ->] & Hk%subseteq_take)%list_elem_of_fmap.
    apply Hsorted in Hk. split; [done|].
    assert (k ∈ sv_keys ∨ k ∈ en_keys) as Hor.
    { apply elem_of_difference in Hk as [Hk _]. by apply elem_of_union in Hk. }
    rewrite location_label_cases.
    + repeat case_bool_decide; naive_solver.
    + repeat case_bool_decide; naive_solver.
  - intros key key' Hk Hnk Hk'. apply Hsorted in Hk.
    by eapply take_sorted_below.
  - destruct (limit <? Z.of_nat (size unused_keys))%Z eqn:E.
    + apply Z.ltb_lt in E. lia.
    + apply Z.ltb_ge in E. intros key Hk. rewrite take_ge by lia.
      by apply Hsorted.
Qed.

Lemma unused_report_listing_witness :
  (0 ≤ 2)%Z
  ∧ Extract.unused_report [("b", "1"); ("a", "2"); ("c", "3")]
      [("a", "x"); ("d", "y")] {["c"]} 2
    = Some ([("a", "sv + en"); ("b", "sv only")], Some 1%Z)
  ∧ NoDup [("a", "sv + en"); ("b", "sv only")].*1.
Proof.
  split; [lia|]. split; [by vm_compute|].
  refine (proj1 (proj2 (unused_report_listing
                          [("b", "1"); ("a", "2"); ("c", "3")]
                          [("a", "x"); ("d", "y")] {["c"]} 2
                          [("a", "sv + en"); ("b", "sv only")] (Some 1%Z)
                          _ _)));
    [lia | by vm_compute].
Defined.

(** X23: with a negative limit and some unused key, the unused-keys
    report lists as many keys fewer than there are unused as the limit
    is below zero (none when there are not that many), and the number it
    announces as more is greater than the number of unused keys. *)
Theorem unused_report_negative_limit
    (sv_data en_data : dict string) (used_keys : gset string) (limit : Z) :
  let unused_keys :=
    (Sync.key_set sv_data ∪ Sync.key_set en_data) ∖ used_keys in
  (limit < 0)%Z →
  unused_keys ≠ ∅ →
  ∃ entries n,
    Extract.unused_report sv_data en_data used_keys limit
    = Some (entries, Some n)
    ∧ List.length entries = (size unused_keys - Z.to_nat (- limit))%nat
    ∧ (Z.of_nat (size unused_keys) < n)%Z.
Proof.
  cbn zeta. intros Hlimit Hne. unfold Extract.unused_report. cbn zeta.
  rewrite bool_decide_eq_false_2 by done.
  rewrite (proj2 (Z.ltb_lt limit _)) by lia.
  eexists _, _. split; [done|]. split; [|lia].
  unfold Extract.slice_to. rewrite (proj2 (Z.leb_gt 0 limit)) by lia.
  rewrite length_fmap, length_take, (sorted_Permutation _).
  change (List.length (elements ?X)) with (size X). lia.
Qed.

Lemma unused_report_negative_limit_witness :
  ∃ entries n,
    Extract.unused_report [("b", "1"); ("a", "2")] [] ∅ (-1)
    = Some (entries, Some n)
    ∧ List.length entries = (size ((Sync.key_set [("b", "1"); ("a", "2")]
                                    ∪ Sync.key_set (V:=string) []) ∖ ∅)
                             - Z.to_nat (- -1))%nat
    ∧ (Z.of_nat (size ((Sync.key_set [("b", "1"); ("a", "2")]
                        ∪ Sync.key_set (V:=string) []) ∖ ∅)) < n)%Z.
Proof.
  apply (unused_report_negative_limit [("b", "1"); ("a", "2")] [] ∅ (-1));
    [lia | by vm_compute].
Defined.

(** X24: once the scan has returned, the exit test that ends [main] of
    i18n-extract gives 0 or 1, and it gives 0 exactly when every key
    referenced on some line of some readable file is a key of the
    Swedish or of the English table. *)
Theorem extract_exit_code_cases
    (sv_data en_data : dict string)
    (svelte_files : list (string * option string)) :
  let used_keys := (Extract.scan_all_svelte_files svelte_files).1 in
  let status := Extract.exit_code sv_data en_data used_keys in
  (status = 0%Z ∨ status = 1%Z)
  ∧ (status = 0%Z ↔
     ∀ path content line key,
       (path, Some content) ∈ svelte_files →
       line ∈ split_lines content →
       key ∈ Extract.findall line →
       key ∈ keys sv_data ∨ key ∈ keys en_data).
Proof.
  cbn zeta. unfold Extract.exit_code. cbn zeta.
  pose proof (elem_of_scan_used svelte_files) as Hused.
  destruct (Extract.scan_all_svelte_files svelte_files) as [used locs].
  cbn [fst] in Hused |- *.
  set (missing := used ∖ (Sync.key_set sv_data ∪ Sync.key_set en_data)).
  assert (missing = ∅ ↔
          ∀ path content line key,
            (path, Some content) ∈ svelte_files →
            line ∈ split_lines content →
            key ∈ Extract.findall line →
            key ∈ keys sv_data ∨ key ∈ keys en_data) as Hiff.
  { split.
    - intros Hm path content line key Hf Hl Hk.
      assert (key ∈ used) as Hu.
      { apply Hused. exists path, (Some content). split; [done|].
        apply elem_of_keys_extract. by exists line. }
      destruct (decide (key ∈ Sync.key_set sv_data ∪ Sync.key_set en_data))
        as [Hin|Hnin].
      + apply elem_of_union in Hin as [Hin|Hin];
          apply elem_of_key_set in Hin as [? _]; auto.
      + assert (key ∈ missing) as Hmiss by (by apply elem_of_difference).
        rewrite Hm in Hmiss. by apply not_elem_of_empty in Hmiss.
    - intros Hall. apply leibniz_equiv. apply elem_of_equiv_empty.
      intros key [Hu Hnin]%elem_of_difference.
      apply Hused in Hu as (path & [content|] & Hf & Hk);
        [|by apply elem_of_nil in Hk].
      pose proof (extract_keys_valid _ _ Hk) as Hvalid.
      apply elem_of_keys_extract in Hk as (line & Hl & Hk).
      apply Hnin. rewrite elem_of_union, !elem_of_key_set.
      assert (key ≠ schema_key) as Hs.
      { intros ->. by vm_compute in Hvalid. }
      destruct (Hall path content line key Hf Hl Hk); auto. }
  destruct (0 <? size missing)%nat eqn:E.
  - split; [by right|]. rewrite <- Hiff. split; [done|].
    intros Hm. rewrite Hm, size_empty in E. done.
  - split; [by left|]. rewrite <- Hiff. split; [|done]. intros _.
    apply Nat.ltb_ge in E. apply leibniz_equiv, size_empty_inv. lia.
Qed.
